(** * my-menu-app: the menu catalog loader and the decision logic

    A shallow embedding of [src/lib/menus.ts] (in its two versions: the
    server-side one that derives ids with SHA-256, and the static-export one
    that derives them with a 64-bit mixing hash) and of [src/lib/decision.ts],
    with the properties the specification states about them.

    JavaScript strings are sequences of UTF-16 code units, and that is how
    they are modelled here: [jsstring] is a list of code units held in [Z].
    Indexing, [charCodeAt], [indexOf], [slice], [trim] and [===] all work on
    code units, so nothing is lost. *)

From Equations Require Import Equations.
From Stdlib Require Import String Ascii List ZArith Lia Bool DecimalNat.
From Stdlib Require Import Permutation.
Import ListNotations.
Open Scope Z_scope.

(* The unfolding lemmas of the recursive definitions are proved without
   functional extensionality. *)
Unset Equations With Funext.

(** ** The fragment of JavaScript the two files use *)

Module JS.

Definition jsstring := list Z.

(** Bytes of a literal of this file, which is UTF-8 text. *)
Definition bytes (s : string) : list Z :=
  map (fun a => Z.of_N (N_of_ascii a)) (list_ascii_of_string s).

(** UTF-8 bytes to UTF-16 code units; only used to write the literals of
    the source, which are well-formed. *)
Fixpoint decode (bs : list Z) : jsstring :=
  match bs with
  | [] => []
  | b0 :: r0 =>
    if b0 <? 128 then b0 :: decode r0 else
    match r0 with
    | [] => [b0]
    | b1 :: r1 =>
      if b0 <? 224 then
        Z.lor (Z.shiftl (Z.land b0 31) 6) (Z.land b1 63) :: decode r1
      else
      match r1 with
      | [] => [b0; b1]
      | b2 :: r2 =>
        if b0 <? 240 then
          Z.lor (Z.shiftl (Z.land b0 15) 12)
                (Z.lor (Z.shiftl (Z.land b1 63) 6) (Z.land b2 63)) :: decode r2
        else
        match r2 with
        | [] => [b0; b1; b2]
        | b3 :: r3 =>
          let cp := Z.lor (Z.shiftl (Z.land b0 7) 18)
                   (Z.lor (Z.shiftl (Z.land b1 63) 12)
                   (Z.lor (Z.shiftl (Z.land b2 63) 6) (Z.land b3 63))) in
          let v := cp - 65536 in
          (55296 + Z.shiftr v 10) :: (56320 + Z.land v 1023) :: decode r3
        end
      end
    end
  end.

(** A string literal of the source. *)
Definition lit (s : string) : jsstring := decode (bytes s).

Definition dquote : Z := 34.
Definition comma : Z := 44.
Definition TAB : Z := 9.
Definition LF : Z := 10.
Definition CR : Z := 13.

(** [a === b] on strings. *)
Fixpoint streq (a b : jsstring) : bool :=
  match a, b with
  | [], [] => true
  | x :: a', y :: b' => (x =? y) && streq a' b'
  | _, _ => false
  end.

(** [WhiteSpace] and [LineTerminator] of ECMAScript, the code units that
    [String.prototype.trim] strips. *)
Definition isWhiteSpace (c : Z) : bool :=
  ((9 <=? c) && (c <=? 13)) || (c =? 32) || (c =? 160) || (c =? 5760)
  || ((8192 <=? c) && (c <=? 8202)) || (c =? 8232) || (c =? 8233)
  || (c =? 8239) || (c =? 8287) || (c =? 12288) || (c =? 65279).

Fixpoint trimStart (s : jsstring) : jsstring :=
  match s with
  | [] => []
  | c :: r => if isWhiteSpace c then trimStart r else s
  end.

Definition trimEnd (s : jsstring) : jsstring := rev (trimStart (rev s)).

Definition trim (s : jsstring) : jsstring := trimEnd (trimStart s).

(** [arr.join(sep)]. *)
Fixpoint join (sep : jsstring) (arr : list jsstring) : jsstring :=
  match arr with
  | [] => []
  | [x] => x
  | x :: rest => x ++ sep ++ join sep rest
  end.

(** [s.indexOf(c)] for a one-character needle, on the suffix searched;
    [None] is the source's [-1]. *)
Fixpoint indexOf (c : Z) (s : jsstring) : option nat :=
  match s with
  | [] => None
  | x :: r => if x =? c then Some O else option_map S (indexOf c r)
  end.

(** [arr.includes(v)] on an array of strings. *)
Definition includes (arr : list jsstring) (v : jsstring) : bool :=
  existsb (streq v) arr.

(** [arr.findIndex(p)]; [None] is [-1]. *)
Fixpoint findIndex {A : Type} (p : A -> bool) (arr : list A) : option nat :=
  match arr with
  | [] => None
  | x :: r => if p x then Some O else option_map S (findIndex p r)
  end.

(** [raw.split(/\r?\n/)]: the pieces between the line ends, a line end
    being LF or CR LF; [cur] is the piece being read. *)
Fixpoint splitFrom (cur : jsstring) (s : jsstring) : list jsstring :=
  match s with
  | [] => [cur]
  | c :: r =>
    if c =? LF then cur :: splitFrom [] r
    else if c =? CR then
      match r with
      | c' :: r' => if c' =? LF then cur :: splitFrom [] r'
                    else splitFrom (cur ++ [c]) r
      | [] => splitFrom (cur ++ [c]) r
      end
    else splitFrom (cur ++ [c]) r
  end.

Definition splitLines (raw : jsstring) : list jsstring := splitFrom [] raw.

(** [`${v}`] for a value that may be [undefined]. *)
Definition show (v : option jsstring) : jsstring :=
  match v with
  | Some s => s
  | None => lit "undefined"
  end.

(** [v ?? ""]. *)
Definition orEmpty (v : option jsstring) : jsstring :=
  match v with
  | Some s => s
  | None => []
  end.

(** [`${n}`] for a non-negative integer. *)
Fixpoint digits (u : Decimal.uint) : jsstring :=
  match u with
  | Decimal.Nil => []
  | Decimal.D0 r => 48 :: digits r
  | Decimal.D1 r => 49 :: digits r
  | Decimal.D2 r => 50 :: digits r
  | Decimal.D3 r => 51 :: digits r
  | Decimal.D4 r => 52 :: digits r
  | Decimal.D5 r => 53 :: digits r
  | Decimal.D6 r => 54 :: digits r
  | Decimal.D7 r => 55 :: digits r
  | Decimal.D8 r => 56 :: digits r
  | Decimal.D9 r => 57 :: digits r
  end.

Definition showNat (n : nat) : jsstring := digits (Nat.to_uint n).

(** A Number that is finite and not negative, [mantissa * 2 ^ exponent].
    The doubles of this kind are the values that can be written with
    [mantissa < 2 ^ 53] and [-1074 <= exponent <= 971]. *)
Record number : Type := mkNumber {
  mantissa : Z;
  exponent : Z
}.

(** What [Math.random()] can return: a double, not negative and less
    than 1. *)
Definition isRandom (x : number) : Prop :=
  0 <= mantissa x < 2 ^ 53 /\ -1074 <= exponent x < 0
  /\ mantissa x < 2 ^ (- exponent x).

(** The double nearest to [N * 2 ^ e], for [N >= 0] and [-1074 <= e], ties
    going to the even mantissa: [N] when it has 53 bits at most, else its
    first 53 bits, plus one when the bits dropped are more than half a unit,
    or half a unit after an odd mantissa. Far below the largest double, as
    the products of this program are, nothing overflows. *)
Definition roundToDouble (N e : Z) : number :=
  let s := Z.log2 N - 52 in
  if s <=? 0 then mkNumber N e
  else
    let q := N / 2 ^ s in
    let rest := N mod 2 ^ s in
    let half := 2 ^ (s - 1) in
    if (half <? rest) || ((rest =? half) && Z.odd q)
    then mkNumber (q + 1) (e + s)
    else mkNumber q (e + s).

(** [x * n] for a Number [x] and the length [n] of an array, which is an
    integer below [2 ^ 32] and so a double: the product, rounded. *)
Definition timesLength (x : number) (n : nat) : number :=
  roundToDouble (mantissa x * Z.of_nat n) (exponent x).

(** [Math.floor(x)], as an integer. *)
Definition floor (x : number) : Z :=
  if 0 <=? exponent x then mantissa x * 2 ^ exponent x
  else mantissa x / 2 ^ (- exponent x).

(** What a call produces: a value, or a thrown [Error] with its message. *)
Inductive outcome (A : Type) : Type :=
| Return (a : A)
| Throw (message : jsstring).
Arguments Return {A} a.
Arguments Throw {A} message.

End JS.

Import JS.

(** ** [src/lib/menus.ts]: what the two versions share

    [parseCSVLine], the two guards and the body of the loader are the same
    text in both versions of the file; only [stableId] differs, so the loader
    below takes it as an argument. *)

Module Menus.

Definition MAIN_GENRES : list jsstring :=
  [lit "和食"; lit "洋食"; lit "中華"; lit "その他"; lit "デザート"].

Definition CARBS : list jsstring :=
  [lit "米"; lit "麺"; lit "どちらでもない"].

Record Menu : Type := mkMenu {
  id : jsstring;
  name : jsstring;
  mainGenre : jsstring;
  carb : jsstring
}.

(** The inner [while (i < len)] of a quoted field: [rest] is the line from
    [i] on, [value] the field read so far. Returns the field and the line
    from the [i] the loop is left with. *)
Fixpoint readQuoted (rest : jsstring) (value : jsstring) : jsstring * jsstring :=
  match rest with
  | [] => (value, [])
  | c :: r =>
    if c =? dquote then
      match r with
      | c' :: r' =>
        if c' =? dquote then readQuoted r' (value ++ [dquote])
        else (value, r)
      | [] => (value, r)
      end
    else readQuoted r (value ++ [c])
  end.

(** [if (i < len && line[i] === ",") i++]. *)
Definition skipComma (rest : jsstring) : jsstring :=
  match rest with
  | c :: r => if c =? comma then r else rest
  | [] => rest
  end.

(** The outer [while (i <= len)] of [parseCSVLine]: [rest] is the line from
    [i] on, the result is what the loop pushes on [fields] from there.
    [nextComma] is counted from [i]. *)
Equations? fieldsFrom (rest : jsstring) : list jsstring
  by wf (length rest) lt :=
  fieldsFrom [] := [[]];
  fieldsFrom (c :: r) with (c =? dquote) => {
    | true :=
        fst (readQuoted r []) :: fieldsFrom (skipComma (snd (readQuoted r [])));
    | false with indexOf comma (c :: r) => {
      | None := [c :: r];
      | Some nextComma :=
          firstn nextComma (c :: r)
          :: fieldsFrom (skipn (nextComma + 1) (c :: r)) } }.
Proof.
  - (* the quoted field and the comma after it are behind [i] *)
    assert (Hquoted : forall rest value,
              (length (snd (readQuoted rest value)) <= length rest)%nat).
    { intros rest.
      induction rest as [rest IH] using (well_founded_induction
        (Wf_nat.well_founded_ltof _ (@length Z))).
      unfold Wf_nat.ltof in IH. intros value.
      destruct rest as [|c0 r0]; simpl; [lia|].
      destruct (c0 =? dquote).
      - destruct r0 as [|c1 r1]; simpl; [lia|].
        destruct (c1 =? dquote); simpl; [|lia].
        specialize (IH r1 ltac:(simpl; lia) (value ++ [dquote])). lia.
      - specialize (IH r0 ltac:(simpl; lia) (value ++ [c0])). lia. }
    specialize (Hquoted r []).
    unfold skipComma. destruct (snd (readQuoted r [])) as [|c0 r0]; simpl.
    + lia.
    + simpl in Hquoted. destruct (c0 =? comma); simpl; lia.
  - rewrite Nat.add_1_r. simpl. pose proof (length_skipn nextComma r). lia.
Qed.

Definition parseCSVLine (line : jsstring) : list jsstring := fieldsFrom line.

(** *** Guard functions *)

Definition isMainGenre (v : jsstring) : bool := includes MAIN_GENRES v.

Definition isCarb (v : jsstring) : bool := includes CARBS v.

(** *** The loader *)

Definition expectedHeader : list jsstring :=
  [lit "name"; lit "mainGenre"; lit "carb"].

(** [expectedHeader.every((h, i) => header[i] === h)], from index [i] on;
    [header[i]] is [undefined] past the end, which equals no string. *)
Fixpoint everyFrom (i : nat) (expected header : list jsstring) : bool :=
  match expected with
  | [] => true
  | h :: rest =>
    match nth_error header i with
    | Some x => streq x h && everyFrom (S i) rest header
    | None => false
    end
  end.

(** The messages of the three [throw]s. *)
Definition emptyMessage : jsstring :=
  lit "menus.csv is empty or contains only blank lines.".

Definition headerMessage (header : list jsstring) : jsstring :=
  lit "menus.csv: unexpected header. Expected ["
  ++ join (lit ",") expectedHeader ++ lit "] but got ["
  ++ join (lit ",") header ++ lit "]".

Definition validationMessage (errors : list jsstring) : jsstring :=
  lit "menus.csv validation failed:" ++ [LF] ++ join [LF] errors.

(** The two messages a row can collect, and the message of a row. *)
Definition mainGenreError (mainGenre : option jsstring) : jsstring :=
  lit "mainGenre=" ++ [dquote] ++ show mainGenre ++ [dquote]
  ++ lit " is not one of [" ++ join (lit ",") MAIN_GENRES ++ lit "]".

Definition carbError (carb : option jsstring) : jsstring :=
  lit "carb=" ++ [dquote] ++ show carb ++ [dquote]
  ++ lit " is not one of [" ++ join (lit ",") CARBS ++ lit "]".

Definition rowMessage (rowNum : nat) (rowErrors : list jsstring) : jsstring :=
  lit "Row " ++ showNat rowNum ++ lit ": " ++ join (lit "; ") rowErrors.

(** [rowErrors] of a row, from its second and third column. *)
Definition rowErrorsOf (mainGenre carb : option jsstring) : list jsstring :=
  (if negb (isMainGenre (orEmpty mainGenre)) then [mainGenreError mainGenre]
   else [])
  ++ (if negb (isCarb (orEmpty carb)) then [carbError carb] else []).

Section Loader.

(** The [stableId] of the version of the file at hand. *)
Variable stableId : jsstring -> jsstring -> jsstring -> jsstring.

(** [l.trim() === ""] *)
Definition isBlank (l : jsstring) : bool := streq (trim l) [].

(** One turn of the [for] loop, on line [i] (counted from 0) and the two
    arrays [menus] and [errors]. *)
Definition rowStep (i : nat) (line : jsstring)
    (st : list Menu * list jsstring) : list Menu * list jsstring :=
  let '(menus, errors) := st in
  let rowNum := (i + 1)%nat in
  if isBlank line then st else
  let cols := map trim (parseCSVLine line) in
  match nth_error cols 0 with
  | None | Some [] => st
  | Some name =>
    let mainGenre := nth_error cols 1 in
    let carb := nth_error cols 2 in
    let rowErrors := rowErrorsOf mainGenre carb in
    if (0 <? length rowErrors)%nat then
      (menus, errors ++ [rowMessage rowNum rowErrors])
    else
      (menus ++ [mkMenu (stableId name (orEmpty mainGenre) (orEmpty carb))
                        name (orEmpty mainGenre) (orEmpty carb)],
       errors)
  end.

(** The [for] loop from line [i] on; [lines] are the lines from [i]. *)
Fixpoint rowLoop (i : nat) (lines : list jsstring)
    (st : list Menu * list jsstring) : list Menu * list jsstring :=
  match lines with
  | [] => st
  | line :: rest => rowLoop (S i) rest (rowStep i line st)
  end.

(** The loader on the lines of the text. *)
Definition parseLines (lines : list jsstring) : outcome (list Menu) :=
  match findIndex (fun l => negb (isBlank l)) lines with
  | None => Throw emptyMessage
  | Some headerIdx =>
    let header := map trim (parseCSVLine (nth headerIdx lines [])) in
    if (length header <? length expectedHeader)%nat
       || negb (everyFrom 0 expectedHeader header)
    then Throw (headerMessage header)
    else
      let '(menus, errors) :=
        rowLoop (headerIdx + 1) (skipn (headerIdx + 1) lines) ([], []) in
      if (0 <? length errors)%nat then Throw (validationMessage errors)
      else Return menus
  end.

(** [parseMenusFromCSVText] of the static-export version, and the body of
    [loadMenusFromPublicCSV] of the server-side one after it has read the
    file into [raw]. *)
Definition parseText (raw : jsstring) : outcome (list Menu) :=
  parseLines (splitLines raw).

End Loader.

End Menus.

(** ** [stableId] of the static-export version: two 32-bit mixing hashes *)

Module MenusMix.

(** The 32-bit integer operations of JavaScript, on [Z]. *)
Definition toUint32 (x : Z) : Z := x mod 4294967296.

Definition toInt32 (x : Z) : Z :=
  let u := toUint32 x in
  if u <? 2147483648 then u else u - 4294967296.

(** [a ^ b] *)
Definition xor32 (a b : Z) : Z := Z.lxor (toInt32 a) (toInt32 b).

(** [a & b] *)
Definition and32 (a b : Z) : Z := Z.land (toInt32 a) (toInt32 b).

(** [a >>> k] *)
Definition ushr32 (a : Z) (k : Z) : Z := Z.shiftr (toUint32 a) k.

(** [Math.imul(a, b)] *)
Definition imul (a b : Z) : Z := toInt32 (toUint32 a * toUint32 b).

(** One digit of [toString], [0-9a-z]. *)
Definition digitChar (d : Z) : Z := if d <? 10 then 48 + d else 87 + d.

(** The digits of [n] in base [radix], most significant first, in front of
    [acc]; one unit of [fuel] per digit. *)
Fixpoint radixDigits (fuel : nat) (radix n : Z) (acc : jsstring) : jsstring :=
  match fuel with
  | O => acc
  | S fuel' =>
    let acc' := digitChar (n mod radix) :: acc in
    if n <? radix then acc' else radixDigits fuel' radix (n / radix) acc'
  end.

(** [n.toString(radix)] for an integer [n >= 0]: a number has no more
    digits than it has bits. *)
Definition toStringRadix (radix n : Z) : jsstring :=
  radixDigits (S (Z.to_nat (Z.log2 n))) radix n [].

(** [s.padStart(width, "0")] *)
Definition padStart0 (width : nat) (s : jsstring) : jsstring :=
  repeat 48 (width - length s) ++ s.

(** The [for] loop over the code units of [str]. *)
Fixpoint mixLoop (str : jsstring) (h : Z * Z) : Z * Z :=
  match str with
  | [] => h
  | ch :: rest =>
    let '(h1, h2) := h in
    mixLoop rest (imul (xor32 h1 ch) 2654435761, imul (xor32 h2 ch) 1597334677)
  end.

Definition combinedOf (str : jsstring) : Z :=
  let '(h1, h2) := mixLoop str (3735928559, 1103547991) in
  let h1 := imul (xor32 h1 (ushr32 h1 16)) 2246822507 in
  let h1 := xor32 h1 (imul (xor32 h2 (ushr32 h2 13)) 3266489909) in
  let h2 := imul (xor32 h2 (ushr32 h2 16)) 2246822507 in
  let h2 := xor32 h2 (imul (xor32 h1 (ushr32 h1 13)) 3266489909) in
  4294967296 * and32 2097151 h2 + ushr32 h1 0.

Definition stableId (name mainGenre carb : jsstring) : jsstring :=
  let str := name ++ [TAB] ++ mainGenre ++ [TAB] ++ carb in
  padStart0 11 (toStringRadix 36 (combinedOf str)).

Definition parseMenusFromCSVText (raw : jsstring) : outcome (list Menus.Menu) :=
  Menus.parseText stableId raw.

End MenusMix.

(** ** [stableId] of the server-side version: SHA-256, 12 hex characters *)

Module MenusSha.

(** What Node does with a string given to [hash.update]: it encodes it as
    UTF-8, a lone surrogate becoming U+FFFD. *)
Fixpoint utf8 (s : jsstring) : list Z :=
  match s with
  | [] => []
  | c :: r =>
    if c <? 128 then c :: utf8 r
    else if c <? 2048 then
      (192 + Z.shiftr c 6) :: (128 + Z.land c 63) :: utf8 r
    else if (55296 <=? c) && (c <=? 56319) then
      match r with
      | d :: r' =>
        if (56320 <=? d) && (d <=? 57343) then
          let cp := 65536 + Z.shiftl (c - 55296) 10 + (d - 56320) in
          (240 + Z.shiftr cp 18) :: (128 + Z.land (Z.shiftr cp 12) 63)
          :: (128 + Z.land (Z.shiftr cp 6) 63) :: (128 + Z.land cp 63)
          :: utf8 r'
        else 239 :: 191 :: 189 :: utf8 r
      | [] => 239 :: 191 :: 189 :: utf8 r
      end
    else if (56320 <=? c) && (c <=? 57343) then 239 :: 191 :: 189 :: utf8 r
    else
      (224 + Z.shiftr c 12) :: (128 + Z.land (Z.shiftr c 6) 63)
      :: (128 + Z.land c 63) :: utf8 r
  end.

(** SHA-256 as FIPS 180-4 defines it, on 32-bit words held in [Z]; this is
    what [createHash("sha256")] of Node's [crypto] computes. *)
Definition w32 (x : Z) : Z := x mod 4294967296.

Definition rotr (n x : Z) : Z :=
  w32 (Z.lor (Z.shiftr x n) (Z.shiftl x (32 - n))).

Definition Ch (x y z : Z) : Z := Z.lxor (Z.land x y) (Z.land (w32 (Z.lnot x)) z).
Definition Maj (x y z : Z) : Z :=
  Z.lxor (Z.lxor (Z.land x y) (Z.land x z)) (Z.land y z).
Definition bigSigma0 (x : Z) : Z := Z.lxor (Z.lxor (rotr 2 x) (rotr 13 x)) (rotr 22 x).
Definition bigSigma1 (x : Z) : Z := Z.lxor (Z.lxor (rotr 6 x) (rotr 11 x)) (rotr 25 x).
Definition smallSigma0 (x : Z) : Z :=
  Z.lxor (Z.lxor (rotr 7 x) (rotr 18 x)) (Z.shiftr x 3).
Definition smallSigma1 (x : Z) : Z :=
  Z.lxor (Z.lxor (rotr 17 x) (rotr 19 x)) (Z.shiftr x 10).

Definition K256 : list Z :=
  [1116352408; 1899447441; 3049323471; 3921009573; 961987163; 1508970993;
   2453635748; 2870763221; 3624381080; 310598401; 607225278; 1426881987;
   1925078388; 2162078206; 2614888103; 3248222580; 3835390401; 4022224774;
   264347078; 604807628; 770255983; 1249150122; 1555081692; 1996064986;
   2554220882; 2821834349; 2952996808; 3210313671; 3336571891; 3584528711;
   113926993; 338241895; 666307205; 773529912; 1294757372; 1396182291;
   1695183700; 1986661051; 2177026350; 2456956037; 2730485921; 2820302411;
   3259730800; 3345764771; 3516065817; 3600352804; 4094571909; 275423344;
   430227734; 506948616; 659060556; 883997877; 958139571; 1322822218;
   1537002063; 1747873779; 1955562222; 2024104815; 2227730452; 2361852424;
   2428436474; 2756734187; 3204031479; 3329325298].

Definition state : Type := (Z * Z * Z * Z * Z * Z * Z * Z)%type.

Definition H0 : state :=
  (1779033703, 3144134277, 1013904242, 2773480762,
   1359893119, 2600822924, 528734635, 1541459225).

(** The message with its padding: a 1 bit, zeros, the bit length on 8 bytes. *)
Definition pad (msg : list Z) : list Z :=
  let len := Z.of_nat (length msg) in
  let zeros := Z.to_nat ((55 - len) mod 64) in
  let bits := 8 * len in
  msg ++ [128] ++ repeat 0 zeros
  ++ map (fun i => Z.shiftr bits (8 * i) mod 256) [7; 6; 5; 4; 3; 2; 1; 0].

(** Big-endian words of a run of bytes. *)
Fixpoint words (bs : list Z) : list Z :=
  match bs with
  | b0 :: b1 :: b2 :: b3 :: rest =>
    (Z.shiftl b0 24 + Z.shiftl b1 16 + Z.shiftl b2 8 + b3) :: words rest
  | _ => []
  end.

(** The message schedule, [n] more words after those of [w]. *)
Fixpoint schedule (n : nat) (w : list Z) : list Z :=
  match n with
  | O => w
  | S n' =>
    let t := length w in
    let at_ k := nth (t - k) w 0 in
    schedule n' (w ++ [w32 (smallSigma1 (at_ 2%nat) + at_ 7%nat
                            + smallSigma0 (at_ 15%nat) + at_ 16%nat)])
  end.

Definition round (st : state) (kw : Z * Z) : state :=
  let '(a, b, c, d, e, f, g, h) := st in
  let '(k, w) := kw in
  let t1 := w32 (h + bigSigma1 e + Ch e f g + k + w) in
  let t2 := w32 (bigSigma0 a + Maj a b c) in
  (w32 (t1 + t2), a, b, c, w32 (d + t1), e, f, g).

Definition compress (st : state) (block : list Z) : state :=
  let '(a, b, c, d, e, f, g, h) := st in
  let '(a', b', c', d', e', f', g', h') :=
    fold_left round (combine K256 (schedule 48 block)) st in
  (w32 (a + a'), w32 (b + b'), w32 (c + c'), w32 (d + d'),
   w32 (e + e'), w32 (f + f'), w32 (g + g'), w32 (h + h')).

(** The blocks of 16 words, [n] of them. *)
Fixpoint blocks (n : nat) (ws : list Z) (st : state) : state :=
  match n with
  | O => st
  | S n' => blocks n' (skipn 16 ws) (compress st (firstn 16 ws))
  end.

Definition hexChar (d : Z) : Z := if d <? 10 then 48 + d else 87 + d.

Definition hex8 (w : Z) : jsstring :=
  map (fun i => hexChar (Z.shiftr w (4 * i) mod 16)) [7; 6; 5; 4; 3; 2; 1; 0].

(** [createHash("sha256").update(msg).digest("hex")] *)
Definition sha256hex (msg : list Z) : jsstring :=
  let ws := words (pad msg) in
  let '(a, b, c, d, e, f, g, h) := blocks (length ws / 16) ws H0 in
  hex8 a ++ hex8 b ++ hex8 c ++ hex8 d ++ hex8 e ++ hex8 f ++ hex8 g ++ hex8 h.

Definition stableId (name mainGenre carb : jsstring) : jsstring :=
  let hash := sha256hex (utf8 (name ++ [TAB] ++ mainGenre ++ [TAB] ++ carb)) in
  firstn 12 hash.

(** [loadMenusFromPublicCSV], [raw] being the text of [public/menus.csv]. *)
Definition loadMenusFromPublicCSV (raw : jsstring) : outcome (list Menus.Menu) :=
  Menus.parseText stableId raw.

End MenusSha.

(** ** [src/lib/decision.ts] *)

Module Decision.

(** A [Filter] as it is at run time: [mode] is a string, the two optional
    properties are strings or [undefined]. The type [Mode] allows the four
    strings of [modes]. *)
Record Filter : Type := mkFilter {
  mainGenre : option jsstring;
  carb : option jsstring;
  mode : jsstring
}.

Definition modes : list jsstring :=
  [lit "genre"; lit "dessert"; lit "carb"; lit "random"].

Definition dessert : jsstring := lit "デザート".
Definition eitherCarb : jsstring := lit "どちらでもない".

Definition unknownMode (mode : jsstring) : jsstring :=
  lit "Unknown mode: " ++ mode.

Definition getCandidates (menus : list Menus.Menu) (filter : Filter)
    : outcome (list Menus.Menu) :=
  if streq (mode filter) (lit "random") then
    Return (List.filter (fun m => negb (streq (Menus.mainGenre m) dessert)) menus)
  else if streq (mode filter) (lit "carb") then
    match carb filter with
    | None | Some [] => Return []
    | Some target =>
      Return (List.filter
        (fun m => negb (streq (Menus.mainGenre m) dessert)
                  && (streq (Menus.carb m) target
                      || streq (Menus.carb m) eitherCarb))
        menus)
    end
  else if streq (mode filter) (lit "genre") then
    match mainGenre filter with
    | None | Some [] => Return []
    | Some genre =>
      Return (List.filter (fun m => streq (Menus.mainGenre m) genre) menus)
    end
  else if streq (mode filter) (lit "dessert") then
    Return (List.filter (fun m => streq (Menus.mainGenre m) dessert) menus)
  else Throw (unknownMode (mode filter)).

(** [pickOne]; [random] is the double [Math.random()] returns. The product
    is the double product, rounded as the source has it. *)
Definition pickOne (random : number) (candidates : list Menus.Menu)
    : option Menus.Menu :=
  if (length candidates =? 0)%nat then None
  else
    let idx := floor (timesLength random (length candidates)) in
    nth_error candidates (Z.to_nat idx).

Record Decided : Type := mkDecided {
  result : option Menus.Menu;
  candidatesCount : nat
}.

Definition decideNext (random : number) (menus : list Menus.Menu)
    (filter : Filter)
    (_prevId : option jsstring) : outcome Decided :=
  match getCandidates menus filter with
  | Throw message => Throw message
  | Return candidates =>
    let result := pickOne random candidates in
    Return (mkDecided result (length candidates))
  end.

End Decision.

(** ** What the specification calls things *)

Module Spec.

Import Decision.

(** The four shapes of a filter. *)
Inductive Shape : Type :=
| RandomFilter
| CarbFilter (target : jsstring)
| GenreFilter (genre : jsstring)
| DessertFilter.

(** The carbs a user can ask for. *)
Definition carbTargets : list jsstring := [lit "米"; lit "麺"].

(** [filter] is of shape [s]. *)
Definition hasShape (filter : Filter) (s : Shape) : Prop :=
  match s with
  | RandomFilter => mode filter = lit "random"
  | CarbFilter target =>
    mode filter = lit "carb" /\ carb filter = Some target
    /\ In target carbTargets
  | GenreFilter genre =>
    mode filter = lit "genre" /\ mainGenre filter = Some genre
    /\ In genre Menus.MAIN_GENRES
  | DessertFilter => mode filter = lit "dessert"
  end.

Definition recognized (filter : Filter) : Prop := exists s, hasShape filter s.

(** The predicate of a shape. *)
Definition satisfies (s : Shape) (m : Menus.Menu) : Prop :=
  match s with
  | RandomFilter => Menus.mainGenre m <> dessert
  | CarbFilter target =>
    Menus.mainGenre m <> dessert
    /\ (Menus.carb m = target \/ Menus.carb m = eitherCarb)
  | GenreFilter genre => Menus.mainGenre m = genre
  | DessertFilter => Menus.mainGenre m = dessert
  end.

(** [kept] is the subsequence of [all] made of the elements that satisfy
    [P], in the order of [all]. *)
Inductive Selected {A : Type} (P : A -> Prop) : list A -> list A -> Prop :=
| Selected_nil : Selected P [] []
| Selected_keep x all kept :
    P x -> Selected P all kept -> Selected P (x :: all) (x :: kept)
| Selected_drop x all kept :
    ~ P x -> Selected P all kept -> Selected P (x :: all) kept.

(** The pieces of [s] between the occurrences of [sep]; [cur] is the piece
    being read. *)
Fixpoint splitOnFrom (sep : Z) (cur : jsstring) (s : jsstring)
    : list jsstring :=
  match s with
  | [] => [cur]
  | c :: r =>
    if c =? sep then cur :: splitOnFrom sep [] r
    else splitOnFrom sep (cur ++ [c]) r
  end.

Definition splitOn (sep : Z) (s : jsstring) : list jsstring :=
  splitOnFrom sep [] s.

(** The trimmed fields of a line, and its [k]-th one if it has one. *)
Definition fields (line : jsstring) : list jsstring :=
  map trim (Menus.parseCSVLine line).

Definition column (k : nat) (line : jsstring) : option jsstring :=
  nth_error (fields line) k.

(** A data row with a name: its first field is not empty once trimmed. *)
Definition hasName (line : jsstring) : bool :=
  negb (streq (orEmpty (column 0 line)) []).

(** Both enumerated fields are of their vocabulary; a missing one counts as
    the empty string. *)
Definition validFields (line : jsstring) : bool :=
  Menus.isMainGenre (orEmpty (column 1 line))
  && Menus.isCarb (orEmpty (column 2 line)).

Definition invalidRow (line : jsstring) : bool :=
  hasName line && negb (validFields line).

Definition validRow (line : jsstring) : bool :=
  hasName line && validFields line.

(** The record of a valid row. *)
Definition recordOf (stableId : jsstring -> jsstring -> jsstring -> jsstring)
    (line : jsstring) : Menus.Menu :=
  let name := orEmpty (column 0 line) in
  let mainGenre := orEmpty (column 1 line) in
  let carb := orEmpty (column 2 line) in
  Menus.mkMenu (stableId name mainGenre carb) name mainGenre carb.

(** The lines of a text with their numbers, counted from 1. *)
Definition numbered (lines : list jsstring) : list (nat * jsstring) :=
  combine (seq 1 (length lines)) lines.

(** The message of an invalid row, from its number and its text. *)
Definition rowError (row : nat * jsstring) : jsstring :=
  Menus.rowMessage (fst row)
    (Menus.rowErrorsOf (column 1 (snd row)) (column 2 (snd row))).

(** What a record says, its id apart. *)
Definition content (m : Menus.Menu) : jsstring * jsstring * jsstring :=
  (Menus.name m, Menus.mainGenre m, Menus.carb m).

(** Two outcomes of a load that differ in the ids of the records at most. *)
Definition sameButIds (o1 o2 : outcome (list Menus.Menu)) : Prop :=
  match o1, o2 with
  | Return ms1, Return ms2 => map content ms1 = map content ms2
  | Throw e1, Throw e2 => e1 = e2
  | _, _ => False
  end.

(** [needle] is written in [haystack]. *)
Definition mentions (needle haystack : jsstring) : Prop :=
  exists before after, haystack = before ++ needle ++ after.

(** The number that a run of decimal digits writes. *)
Definition readDecimal (s : jsstring) : nat :=
  fold_left (fun acc c => (acc * 10 + Z.to_nat (c - 48))%nat) s 0%nat.

(** What the specification has the error messages say. Of a row: its
    number, and each of its fields that is outside its vocabulary, with the
    value found, [undefined] for a missing one. *)
Definition genreViolation (value : option jsstring) : jsstring :=
  lit "mainGenre=" ++ [dquote] ++ show value ++ [dquote]
  ++ lit " is not one of [和食,洋食,中華,その他,デザート]".

Definition carbViolation (value : option jsstring) : jsstring :=
  lit "carb=" ++ [dquote] ++ show value ++ [dquote]
  ++ lit " is not one of [米,麺,どちらでもない]".

Definition violations (line : jsstring) : list jsstring :=
  (if Menus.isMainGenre (orEmpty (column 1 line)) then []
   else [genreViolation (column 1 line)])
  ++ (if Menus.isCarb (orEmpty (column 2 line)) then []
      else [carbViolation (column 2 line)]).

Definition rowReport (row : nat * jsstring) : jsstring :=
  lit "Row " ++ showNat (fst row) ++ lit ": "
  ++ join (lit "; ") (violations (snd row)).

(** Of the rows that are invalid: one line each, under a heading. *)
Definition validationReport (rows : list (nat * jsstring)) : jsstring :=
  lit "menus.csv validation failed:" ++ [LF]
  ++ join [LF] (map rowReport rows).

(** Of a header: the one expected and the one found. *)
Definition headerReport (actual : list jsstring) : jsstring :=
  lit "menus.csv: unexpected header. Expected [name,mainGenre,carb] but got ["
  ++ join (lit ",") actual ++ lit "]".

Definition emptyReport : jsstring :=
  lit "menus.csv is empty or contains only blank lines.".

(** The kinds of error of the loader, told by the message thrown. *)
Definition MalformedCatalog {A : Type} (o : outcome A) : Prop :=
  o = Throw emptyReport
  \/ exists actual, o = Throw (headerReport actual).

Definition ValidationFailure {A : Type} (o : outcome A) : Prop :=
  exists errors, errors <> [] /\ o = Throw (Menus.validationMessage errors).

End Spec.

(** ** Sample data *)

Module Sample.

Definition curry : Menus.Menu :=
  Menus.mkMenu (lit "11xef58qvsl") (lit "カレー") (lit "洋食") (lit "米").
Definition ramen : Menus.Menu :=
  Menus.mkMenu (lit "1u78m56j198") (lit "ラーメン") (lit "中華") (lit "麺").
Definition pudding : Menus.Menu :=
  Menus.mkMenu (lit "0mune1t1s70") (lit "プリン") (lit "デザート")
               (lit "どちらでもない").

Definition menus : list Menus.Menu := [curry; ramen; pudding].

Definition riceFilter : Decision.Filter :=
  Decision.mkFilter None (Some (lit "米")) (lit "carb").

(** Two draws: one half, and the double nearest to two thirds. *)
Definition half : number := mkNumber 1 (-1).
Definition twoThirds : number := mkNumber 6004799503160661 (-53).


(** A catalog with invalid rows on lines 3 and 5, the one on line 5 of one
    field only; line 4 is a row without a name. *)
Definition badCatalog : jsstring :=
  lit "name,mainGenre,carb" ++ [LF]
  ++ lit "カレー,洋食,米" ++ [LF]
  ++ lit "ピザ,伊,パン" ++ [LF]
  ++ lit " ,洋食,パン" ++ [LF]
  ++ lit "うどん".

(** A catalog whose header lacks [carb]. *)
Definition shortHeaderCatalog : jsstring :=
  lit "name,mainGenre" ++ [LF] ++ lit "カレー,洋食,米".

(** Three blank lines, then a header with a fourth field. *)
Definition leadingBlanksCatalog : jsstring :=
  [LF] ++ lit "  " ++ [CR; LF] ++ [LF]
  ++ lit "name, mainGenre ,carb,note" ++ [LF]
  ++ lit "カレー,洋食,米".

(** The catalog of the specification's end-to-end example. *)
Definition catalog : jsstring :=
  lit "name,mainGenre,carb" ++ [LF]
  ++ lit "カレー,洋食,米" ++ [LF]
  ++ lit "ラーメン,中華,麺" ++ [LF]
  ++ lit "プリン,デザート,どちらでもない" ++ [LF].

End Sample.

(** ** [src/components/Controls.tsx] *)

Module Controls.

Import Decision.

Record ButtonDef : Type := mkButton {
  label : jsstring;
  filter : Filter;
  color : jsstring
}.

Definition GENRE_BUTTONS : list ButtonDef :=
  [mkButton (lit "和食") (mkFilter (Some (lit "和食")) None (lit "genre"))
            (lit "washoku");
   mkButton (lit "洋食") (mkFilter (Some (lit "洋食")) None (lit "genre"))
            (lit "yoshoku");
   mkButton (lit "中華") (mkFilter (Some (lit "中華")) None (lit "genre"))
            (lit "chuka");
   mkButton (lit "その他") (mkFilter (Some (lit "その他")) None (lit "genre"))
            (lit "sonota")].

Definition DESSERT_BUTTON : ButtonDef :=
  mkButton (lit "デザート") (mkFilter None None (lit "dessert")) (lit "dessert").

Definition CARB_BUTTONS : list ButtonDef :=
  [mkButton (lit "米が食べたい") (mkFilter None (Some (lit "米")) (lit "carb"))
            (lit "rice");
   mkButton (lit "麺が食べたい") (mkFilter None (Some (lit "麺")) (lit "carb"))
            (lit "noodle")].

Definition RANDOM_BUTTON : ButtonDef :=
  mkButton (lit "🎲 ランダム") (mkFilter None None (lit "random")) (lit "random").

(** [a === b] on two values that are strings or [undefined]. *)
Definition optEq (a b : option jsstring) : bool :=
  match a, b with
  | Some x, Some y => streq x y
  | None, None => true
  | _, _ => false
  end.

(** [a] is [null] or a filter. *)
Definition isActiveFilter (a : option Filter) (b : Filter) : bool :=
  match a with
  | None => false
  | Some a =>
    if negb (streq (mode a) (mode b)) then false
    else if streq (mode a) (lit "genre") && streq (mode b) (lit "genre")
    then optEq (mainGenre a) (mainGenre b)
    else if streq (mode a) (lit "carb") && streq (mode b) (lit "carb")
    then optEq (carb a) (carb b)
    else true
  end.

(** The buttons [Controls] renders with [renderBtn], in the order of the
    page. *)
Definition buttons : list ButtonDef :=
  GENRE_BUTTONS ++ [DESSERT_BUTTON] ++ CARB_BUTTONS ++ [RANDOM_BUTTON].

(** What [renderBtn] makes of a button: its label, and whether it carries
    the class [active]. *)
Definition renderBtn (activeFilter : option Filter) (def : ButtonDef)
    : jsstring * bool :=
  (label def, isActiveFilter activeFilter (filter def)).

(** [disabled={!hasResult}] of the reroll button. *)
Definition rerollDisabled (hasResult : bool) : bool := negb hasResult.

End Controls.

(** ** [src/components/ResultCard.tsx] *)

Module ResultCard.

(** The text of the second tag of the card. *)
Definition carbTag (menu : Menus.Menu) : jsstring :=
  if streq (Menus.carb menu) (lit "どちらでもない") then lit "─"
  else Menus.carb menu.

End ResultCard.

(** ** [src/components/DinnerApp.tsx]

    The component keeps one [State]; each of its two handlers is modelled
    as the state it sets from the state of the render it was made in, or
    the error it lets through. [random] is the draw of the [decideNext] the
    handler calls. *)

Module DinnerApp.

Import Decision.

Record State : Type := mkState {
  filter : option Filter;
  result : option Menus.Menu;
  candidatesCount : nat;
  hasDecided : bool
}.

(** The argument of [useState]. *)
Definition initial : State := mkState None None 0 false.

Definition handleSelect (random : number) (menus : list Menus.Menu)
    (filter : Filter) (state : State) : outcome State :=
  match decideNext random menus filter None with
  | Throw message => Throw message
  | Return d =>
    Return (mkState (Some filter) (Decision.result d)
                    (Decision.candidatesCount d) true)
  end.

Definition handleReroll (random : number) (menus : list Menus.Menu)
    (state : State) : outcome State :=
  match filter state with
  | None => Return state
  | Some f =>
    match decideNext random menus f (option_map Menus.id (result state)) with
    | Throw message => Throw message
    | Return d =>
      Return (mkState (filter state) (Decision.result d)
                      (Decision.candidatesCount d) (hasDecided state))
    end
  end.

(** What the result area shows. *)
Inductive View : Type :=
| Placeholder
| Card (menu : Menus.Menu)
| NoMatch.

Definition view (state : State) : View :=
  if negb (hasDecided state) then Placeholder
  else match result state with
       | Some menu => Card menu
       | None => NoMatch
       end.

(** The props [activeFilter] and [hasResult] given to [Controls]. *)
Definition activeFilter (state : State) : option Filter := filter state.

Definition hasResult (state : State) : bool :=
  match result state with
  | Some _ => true
  | None => false
  end.

(** What a user can do: click one of the buttons of [Controls], or the
    reroll button. *)
Inductive Event : Type :=
| Click (def : Controls.ButtonDef) (random : number)
| Reroll (random : number).

Definition handle (menus : list Menus.Menu) (e : Event) (state : State)
    : outcome State :=
  match e with
  | Click def random => handleSelect random menus (Controls.filter def) state
  | Reroll random => handleReroll random menus state
  end.

End DinnerApp.

(** ** More of what the properties speak of *)

Module Notions.

(** A field written between quotes: each quote of it doubled. *)
Fixpoint escape (v : jsstring) : jsstring :=
  match v with
  | [] => []
  | c :: r => if c =? dquote then dquote :: dquote :: escape r
              else c :: escape r
  end.

(** A draw of [Math.random()]. *)
Definition isDraw (random : number) : Prop := isRandom random.

(** [e] is an event the page allows in [state]: a click on one of the
    buttons rendered, or on the reroll button when it is not disabled. *)
Definition enabled (e : DinnerApp.Event) (state : DinnerApp.State) : Prop :=
  match e with
  | DinnerApp.Click def random => In def Controls.buttons /\ isDraw random
  | DinnerApp.Reroll random =>
    Controls.rerollDisabled (DinnerApp.hasResult state) = false
    /\ isDraw random
  end.

(** The states the component can be in, for the records [menus]. *)
Inductive Reachable (menus : list Menus.Menu) : DinnerApp.State -> Prop :=
| Reachable_initial : Reachable menus DinnerApp.initial
| Reachable_step state e state' :
    Reachable menus state -> enabled e state ->
    DinnerApp.handle menus e state = Return state' ->
    Reachable menus state'.

(** What holds of every state of the component. *)
Definition Consistent (menus : list Menus.Menu) (state : DinnerApp.State)
    : Prop :=
  match DinnerApp.filter state with
  | None =>
    DinnerApp.hasDecided state = false /\ DinnerApp.result state = None
    /\ DinnerApp.candidatesCount state = 0%nat
  | Some f =>
    DinnerApp.hasDecided state = true
    /\ (exists def, In def Controls.buttons /\ f = Controls.filter def)
    /\ exists candidates,
         Decision.getCandidates menus f = Return candidates
         /\ DinnerApp.candidatesCount state = length candidates
         /\ (DinnerApp.result state = None <-> candidates = [])
         /\ (forall m, DinnerApp.result state = Some m -> In m candidates)
  end.

(** The state after a click on the rice button, for the sample records:
    the one candidate is shown. *)
Definition riceChosen : DinnerApp.State :=
  DinnerApp.mkState (Some Sample.riceFilter) (Some Sample.curry) 1 true.

(** A character of an id: [0-9a-z], and [0-9a-f]. *)
Definition isBase36 (c : Z) : bool :=
  ((48 <=? c) && (c <=? 57)) || ((97 <=? c) && (c <=? 122)).

Definition isHex (c : Z) : bool :=
  ((48 <=? c) && (c <=? 57)) || ((97 <=? c) && (c <=? 102)).

(** What a loaded record keeps. *)
Definition wellFormed (stableId : jsstring -> jsstring -> jsstring -> jsstring)
    (m : Menus.Menu) : Prop :=
  Menus.name m <> [] /\ trim (Menus.name m) = Menus.name m
  /\ In (Menus.mainGenre m) Menus.MAIN_GENRES
  /\ In (Menus.carb m) Menus.CARBS
  /\ Menus.id m = stableId (Menus.name m) (Menus.mainGenre m) (Menus.carb m).

End Notions.

(** * Properties *)

(** ** Strings *)

Lemma streq_true_iff (a b : jsstring) : streq a b = true <-> a = b.
Proof.
  revert b. induction a as [|x a IH]; intros [|y b]; simpl;
    try (split; [discriminate | discriminate]); [split; reflexivity|].
  rewrite andb_true_iff, Z.eqb_eq, IH.
  split; [intros [-> ->]; reflexivity | intros H; inversion H; auto].
Qed.

Lemma streq_false_iff (a b : jsstring) : streq a b = false <-> a <> b.
Proof.
  rewrite <- streq_true_iff. destruct (streq a b); split; congruence.
Qed.

Lemma streq_refl (a : jsstring) : streq a a = true.
Proof. apply streq_true_iff. reflexivity. Qed.

Lemma trimStart_nil (s : jsstring) :
  trimStart s = [] -> forallb isWhiteSpace s = true.
Proof.
  induction s as [|c r IH]; simpl; [reflexivity|].
  destruct (isWhiteSpace c); [exact IH | discriminate].
Qed.

Lemma trimStart_head (s : jsstring) (c : Z) (r : jsstring) :
  trimStart s = c :: r -> isWhiteSpace c = false.
Proof.
  induction s as [|x s IH]; simpl; [discriminate|].
  destruct (isWhiteSpace x) eqn:E; [exact IH|].
  intros H. injection H as <- _. exact E.
Qed.

(** A string that [trim] empties is made of white space. *)
Lemma trim_nil (s : jsstring) :
  trim s = [] -> forallb isWhiteSpace s = true.
Proof.
  unfold trim, trimEnd. intros H.
  apply (f_equal (@rev Z)) in H. rewrite rev_involutive in H. simpl in H.
  apply trimStart_nil in H.
  destruct (trimStart s) as [|c r] eqn:E; [apply trimStart_nil; exact E|].
  apply trimStart_head in E.
  rewrite forallb_forall in H.
  rewrite (H c) in E; [discriminate|].
  apply in_rev. rewrite rev_involutive. left. reflexivity.
Qed.

Lemma In_skipn_list (A : Type) (k : nat) (l : list A) (x : A) :
  In x (skipn k l) -> In x l.
Proof.
  intros H. rewrite <- (firstn_skipn k l). apply in_or_app. right. exact H.
Qed.

Lemma indexOf_None (c : Z) (s : jsstring) :
  ~ In c s -> indexOf c s = None.
Proof.
  induction s as [|x r IH]; intros Hin; simpl; [reflexivity|].
  replace (x =? c) with false
    by (symmetry; apply Z.eqb_neq; intros ->; apply Hin; left; reflexivity).
  rewrite IH; [reflexivity|]. intros H. apply Hin. right. exact H.
Qed.

(** ** The decision logic *)

Section Selection.

Variable A : Type.
Variable P : A -> Prop.


(** [Selected] determines the subsequence. *)
Lemma Selected_unique (all kept kept' : list A) :
  Spec.Selected P all kept -> Spec.Selected P all kept' -> kept = kept'.
Proof.
  intros H. revert kept'.
  induction H as [|x all kept Hx _ IH|x all kept Hx _ IH]; intros kept' H';
    inversion H'; subst; try contradiction; auto.
  f_equal. auto.
Qed.

End Selection.

Import Decision Spec.

Lemma In_carbTargets_cons (target : jsstring) :
  In target carbTargets -> exists c r, target = c :: r.
Proof.
  unfold carbTargets. simpl.
  intros [<-|[<-|[]]]; vm_compute; eauto.
Qed.

Lemma In_MAIN_GENRES_cons (genre : jsstring) :
  In genre Menus.MAIN_GENRES -> exists c r, genre = c :: r.
Proof.
  unfold Menus.MAIN_GENRES. simpl.
  intros [<-|[<-|[<-|[<-|[<-|[]]]]]]; vm_compute; eauto.
Qed.



(** The filters of the specification's end-to-end example. *)
Example getCandidates_rice :
  getCandidates Sample.menus Sample.riceFilter = Return [Sample.curry].
Proof. reflexivity. Qed.

Example getCandidates_western :
  getCandidates Sample.menus (mkFilter (Some (lit "洋食")) None (lit "genre"))
    = Return [Sample.curry].
Proof. reflexivity. Qed.

Example getCandidates_dessert :
  getCandidates Sample.menus (mkFilter None None (lit "dessert"))
    = Return [Sample.pudding].
Proof. reflexivity. Qed.

(** A filter with one of the four modes never makes [getCandidates] throw. *)
Lemma getCandidates_returns (menus : list Menus.Menu) (filter : Filter) :
  In (mode filter) modes ->
  exists candidates, getCandidates menus filter = Return candidates.
Proof.
  unfold modes, getCandidates. simpl.
  intros [<-|[<-|[<-|[<-|[]]]]]; simpl.
  - destruct (mainGenre filter) as [[|c r]|]; eauto.
  - eauto.
  - destruct (carb filter) as [[|c r]|]; eauto.
  - eauto.
Qed.





(** The rounded product keeps below the length. With [m] the mantissa of
    the draw and [D] the power of two it is divided by, [m < D], and [N] the
    exact product [m * n]: when [N] is rounded up, by half a unit [2 ^ (s - 1)]
    at most, that half unit is below [n], because [N] is below [2 ^ 53 * n];
    and [N <= D * n - n]. *)
Lemma roundToDouble_below (m n D e : Z) :
  0 <= m < 2 ^ 53 -> 0 < n -> e < 0 -> D = 2 ^ (- e) -> m < D ->
  let x := roundToDouble (m * n) e in
  0 <= mantissa x
  /\ e <= exponent x
  /\ mantissa x * 2 ^ (exponent x - e) < n * D.
Proof.
  intros Hm Hn He HD HmD. unfold roundToDouble.
  set (N := m * n).
  assert (HDpos : 0 < D) by (subst D; apply Z.pow_pos_nonneg; lia).
  assert (HN : 0 <= N) by (unfold N; nia).
  assert (HND : N + n <= n * D) by (unfold N; nia).
  destruct (Z.log2 N - 52 <=? 0) eqn:Es; cbv zeta.
  - simpl. rewrite Z.sub_diag. simpl. lia.
  - apply Z.leb_gt in Es.
    assert (HNpos : 0 < N).
    { destruct (Z.eq_dec N 0) as [E|E]; [|lia].
      rewrite E in Es. simpl in Es. lia. }
    set (s := Z.log2 N - 52) in *.
    assert (H2s : 0 < 2 ^ s) by (apply Z.pow_pos_nonneg; lia).
    pose proof (Z.div_mod N (2 ^ s) ltac:(lia)) as Hdiv.
    pose proof (Z.mod_pos_bound N (2 ^ s) H2s) as Hrest.
    assert (Hq : 0 <= N / 2 ^ s) by (apply Z.div_pos; lia).
    assert (Hhalf : 2 * 2 ^ (s - 1) = 2 ^ s).
    { rewrite <- Z.pow_succ_r by lia. f_equal. lia. }
    assert (Hhalfn : 2 ^ (s - 1) < n).
    { pose proof (Z.log2_spec N HNpos) as [Hlog _].
      replace (Z.log2 N) with ((s - 1) + 53) in Hlog by (unfold s; lia).
      rewrite Z.pow_add_r in Hlog by lia.
      assert (HNn : N < 2 ^ 53 * n) by (unfold N; nia).
      assert (H53 : 0 < 2 ^ 53) by (apply Z.pow_pos_nonneg; lia).
      nia. }
    destruct ((2 ^ (s - 1) <? N mod 2 ^ s)
              || ((N mod 2 ^ s =? 2 ^ (s - 1)) && Z.odd (N / 2 ^ s))) eqn:Eup;
      cbn [mantissa exponent]; replace (e + s - e) with s by lia.
    + assert (Hge : 2 ^ (s - 1) <= N mod 2 ^ s).
      { apply orb_true_iff in Eup. destruct Eup as [Eup|Eup].
        - apply Z.ltb_lt in Eup. lia.
        - apply andb_true_iff in Eup. destruct Eup as [Eup _].
          apply Z.eqb_eq in Eup. lia. }
      split; [lia|]. split; [lia|]. nia.
    + split; [lia|]. split; [lia|]. nia.
Qed.

(** The index [pickOne] computes is an index of the array. *)
Lemma floor_timesLength (random : number) (n : nat) :
  isRandom random -> (0 < n)%nat ->
  0 <= floor (timesLength random n) < Z.of_nat n.
Proof.
  intros (Hm & He & HmD) Hn. unfold timesLength.
  destruct (roundToDouble_below (mantissa random) (Z.of_nat n)
              (2 ^ (- exponent random)) (exponent random)
              Hm ltac:(lia) ltac:(lia) eq_refl HmD) as (Hq & Hexp & Hlt).
  set (x := roundToDouble _ _) in *.
  set (e := exponent random) in *. set (D := 2 ^ (- e)) in *.
  assert (HDpos : 0 < D) by (apply Z.pow_pos_nonneg; lia).
  unfold floor. destruct (0 <=? exponent x) eqn:Ex.
  - apply Z.leb_le in Ex.
    assert (Hpow : 2 ^ (exponent x - e) = 2 ^ exponent x * D).
    { unfold D. rewrite <- Z.pow_add_r by lia. f_equal; lia. }
    rewrite Hpow in Hlt.
    assert (H2 : 0 < 2 ^ exponent x) by (apply Z.pow_pos_nonneg; lia).
    split; [nia|]. nia.
  - apply Z.leb_gt in Ex.
    assert (H2 : 0 < 2 ^ (- exponent x)) by (apply Z.pow_pos_nonneg; lia).
    assert (Hpow : D = 2 ^ (exponent x - e) * 2 ^ (- exponent x)).
    { unfold D. rewrite <- Z.pow_add_r by lia. f_equal; lia. }
    assert (H3 : 0 < 2 ^ (exponent x - e)) by (apply Z.pow_pos_nonneg; lia).
    split; [apply Z.div_pos; lia|].
    apply Z.div_lt_upper_bound; [exact H2|].
    rewrite Hpow in Hlt. nia.
Qed.

Lemma pickOne_In (random : number) (candidates : list Menus.Menu) :
  isRandom random ->
  match pickOne random candidates with
  | None => candidates = []
  | Some m => In m candidates
  end.
Proof.
  intros Hrandom. unfold pickOne.
  destruct candidates as [|m0 rest]; [reflexivity|].
  set (cs := m0 :: rest).
  assert (Hlen : (0 < length cs)%nat) by (simpl; lia).
  replace (length cs =? 0)%nat with false
    by (symmetry; apply Nat.eqb_neq; lia).
  pose proof (floor_timesLength random _ Hrandom Hlen) as Hidx.
  destruct (nth_error cs _) as [m|] eqn:E.
  - eapply nth_error_In. exact E.
  - apply nth_error_None in E. lia.
Qed.

Lemma isRandom_half : isRandom Sample.half.
Proof. unfold isRandom, Sample.half. simpl. lia. Qed.

Lemma isRandom_twoThirds : isRandom Sample.twoThirds.
Proof. unfold isRandom, Sample.twoThirds. simpl. lia. Qed.

(** The double nearest to two thirds, times three, is rounded to two: the
    third of three candidates is picked, where the exact product would give
    the second. *)
Example pickOne_rounds :
  pickOne Sample.twoThirds Sample.menus = Some Sample.pudding.
Proof. reflexivity. Qed.

(** C8. For a filter with one of the four modes and a draw of
    [Math.random()], a double in [0, 1), [decideNext] returns; its
    [candidatesCount] is the length of what [getCandidates] returns, pick or
    no pick; its [result] is [null] exactly when that length is zero, and
    otherwise one of the candidates. [pickOne] of the empty list is
    [null]. *)
Theorem decideNext_counts (random : number) (menus : list Menus.Menu)
    (filter : Filter) (prevId : option jsstring) :
  isRandom random -> In (mode filter) modes ->
  exists candidates d,
    getCandidates menus filter = Return candidates
    /\ decideNext random menus filter prevId = Return d
    /\ candidatesCount d = length candidates
    /\ (result d = None <-> length candidates = 0%nat)
    /\ (forall m, result d = Some m -> In m candidates)
    /\ pickOne random [] = None.
Proof.
  intros Hrandom Hmode.
  destruct (getCandidates_returns menus filter Hmode) as [candidates Hret].
  exists candidates, (mkDecided (pickOne random candidates) (length candidates)).
  unfold decideNext. rewrite Hret. simpl.
  pose proof (pickOne_In random candidates Hrandom) as Hpick.
  repeat split; try reflexivity.
  - intros E. rewrite E in Hpick. subst. reflexivity.
  - intros E. destruct candidates; [reflexivity | discriminate E].
  - intros m E. rewrite E in Hpick. exact Hpick.
Qed.

Lemma decideNext_counts_witness :
  isRandom Sample.twoThirds
  /\ In (mode (mkFilter None None (lit "random"))) modes
  /\ exists candidates d,
       getCandidates Sample.menus (mkFilter None None (lit "random"))
         = Return candidates
       /\ decideNext Sample.twoThirds Sample.menus
            (mkFilter None None (lit "random")) None = Return d
       /\ candidatesCount d = length candidates
       /\ (result d = None <-> length candidates = 0%nat)
       /\ (forall m, result d = Some m -> In m candidates)
       /\ pickOne Sample.twoThirds [] = None.
Proof.
  assert (Hr : isRandom Sample.twoThirds).
  { unfold isRandom, Sample.twoThirds. simpl. lia. }
  assert (Hm : In (mode (mkFilter None None (lit "random"))) modes).
  { do 3 right. left. reflexivity. }
  split; [exact Hr|]. split; [exact Hm|].
  exact (decideNext_counts Sample.twoThirds Sample.menus
           (mkFilter None None (lit "random")) None Hr Hm).
Defined.

(** C9. Whatever the previous pick given, or none, [decideNext] returns the
    same thing for the same records, filter and draw. *)
Theorem decideNext_ignores_prevId (random : number)
    (menus : list Menus.Menu)
    (filter : Filter) (p1 p2 : option jsstring) :
  decideNext random menus filter p1 = decideNext random menus filter p2.
Proof.
  unfold decideNext. destruct (getCandidates menus filter); reflexivity.
Qed.

(** ** [parseCSVLine] *)

Lemma readQuoted_plain (v value rest : jsstring) :
  ~ In dquote v ->
  match rest with c :: _ => c <> dquote | [] => True end ->
  Menus.readQuoted (v ++ dquote :: rest) value = (value ++ v, rest).
Proof.
  revert value. induction v as [|c v IH]; intros value Hv Hrest; simpl.
  - rewrite app_nil_r. destruct rest as [|c' rest']; [reflexivity|].
    replace (c' =? dquote) with false
      by (symmetry; apply Z.eqb_neq; exact Hrest).
    reflexivity.
  - replace (c =? dquote) with false
      by (symmetry; apply Z.eqb_neq; intros ->; apply Hv; left; reflexivity).
    rewrite IH; [|intros H; apply Hv; right; exact H|exact Hrest].
    rewrite <- app_assoc. reflexivity.
Qed.

(** A quoted field that ends the line is followed by one more, empty,
    field: the loop is left with [i === len] and goes round once more. *)
Lemma parseCSVLine_quoted_alone (v : jsstring) :
  ~ In dquote v ->
  Menus.parseCSVLine (dquote :: v ++ [dquote]) = [v; []].
Proof.
  intros Hv. unfold Menus.parseCSVLine. simp fieldsFrom.
  change (dquote =? dquote) with true. simpl.
  rewrite (readQuoted_plain v [] [] Hv I). simpl.
  simp fieldsFrom. reflexivity.
Qed.

(** C3, where the source departs from it. The line [a,"b,c"] does not end
    in a comma, and [parseCSVLine] returns three fields for it, the last one
    empty: the same as for [a,"b,c",]. *)
Theorem parseCSVLine_extra_field :
  Menus.parseCSVLine (lit "a," ++ [dquote] ++ lit "b,c" ++ [dquote])
    = [lit "a"; lit "b,c"; []]
  /\ Menus.parseCSVLine (lit "a," ++ [dquote] ++ lit "b,c" ++ [dquote] ++ lit ",")
    = [lit "a"; lit "b,c"; []].
Proof. split; reflexivity. Qed.

(** The rest of the micro-grammar, on the examples of the source's comment. *)
Example parseCSVLine_bare :
  Menus.parseCSVLine (lit "a,b,c") = [lit "a"; lit "b"; lit "c"].
Proof. reflexivity. Qed.

Example parseCSVLine_trailing_comma :
  Menus.parseCSVLine (lit "a,b,") = [lit "a"; lit "b"; []].
Proof. reflexivity. Qed.

Example parseCSVLine_doubled_quote :
  Menus.parseCSVLine
    (lit "a," ++ [dquote] ++ lit "b" ++ [dquote; dquote] ++ lit "c"
     ++ [dquote] ++ lit ",d")
  = [lit "a"; lit "b" ++ [dquote] ++ lit "c"; lit "d"].
Proof. reflexivity. Qed.

(** [parseCSVLine] returns at least one field. *)
Lemma parseCSVLine_cons (line : jsstring) :
  exists first rest, Menus.parseCSVLine line = first :: rest.
Proof.
  unfold Menus.parseCSVLine. funelim (Menus.fieldsFrom line); eauto.
Qed.

Lemma indexOf_None_inv (c : Z) (s : jsstring) :
  indexOf c s = None -> ~ In c s.
Proof.
  induction s as [|x r IH]; simpl; [tauto|].
  destruct (x =? c) eqn:E; [discriminate|].
  apply Z.eqb_neq in E.
  destruct (indexOf c r); [discriminate|].
  intros _ [H|H]; [contradiction | exact (IH eq_refl H)].
Qed.

Lemma splitOnFrom_none (sep : Z) (s cur : jsstring) :
  ~ In sep s -> splitOnFrom sep cur s = [cur ++ s].
Proof.
  revert cur. induction s as [|c r IH]; intros cur Hin; simpl.
  - rewrite app_nil_r. reflexivity.
  - replace (c =? sep) with false
      by (symmetry; apply Z.eqb_neq; intros ->; apply Hin; left; reflexivity).
    rewrite IH; [|intros H; apply Hin; right; exact H].
    rewrite <- app_assoc. reflexivity.
Qed.

Lemma splitOnFrom_some (sep : Z) (s cur : jsstring) (k : nat) :
  indexOf sep s = Some k ->
  splitOnFrom sep cur s
    = (cur ++ firstn k s) :: splitOnFrom sep [] (skipn (S k) s).
Proof.
  revert cur k. induction s as [|c r IH]; intros cur k; simpl; [discriminate|].
  destruct (c =? sep).
  - intros E. injection E as <-. simpl. rewrite app_nil_r. reflexivity.
  - destruct (indexOf sep r) as [j|]; [|discriminate].
    intros E. injection E as <-.
    rewrite (IH (cur ++ [c]) j eq_refl). simpl.
    rewrite <- app_assoc. reflexivity.
Qed.

(** On a line without quotes [parseCSVLine] splits on the commas, and so
    gives one more, empty, field after a comma that ends the line, and none
    otherwise. *)
Lemma parseCSVLine_unquoted (line : jsstring) :
  ~ In dquote line -> Menus.parseCSVLine line = splitOn comma line.
Proof.
  unfold Menus.parseCSVLine, splitOn.
  funelim (Menus.fieldsFrom line); intros Hquote.
  - reflexivity.
  - apply Z.eqb_eq in Heq. subst c. exfalso. apply Hquote. left. reflexivity.
  - rewrite Nat.add_1_r in *. rewrite (splitOnFrom_some _ _ _ _ Heq).
    cbn [app]. f_equal.
    apply H. intros Hin. apply Hquote.
    eapply In_skipn_list. exact Hin.
  - rewrite splitOnFrom_none; [reflexivity|].
    apply indexOf_None_inv. exact Heq.
Qed.

(** A line with no comma and no quote in front is one field. *)
Lemma parseCSVLine_one_field (line : jsstring) :
  ~ In comma line ->
  match line with c :: _ => c <> dquote | [] => True end ->
  Menus.parseCSVLine line = [line].
Proof.
  intros Hcomma Hquote. unfold Menus.parseCSVLine.
  funelim (Menus.fieldsFrom line); try reflexivity.
  - apply Z.eqb_eq in Heq. contradiction.
  - rewrite (indexOf_None _ _ Hcomma) in Heq. discriminate Heq.
Qed.

(** The first field of a blank line is blank. *)
Lemma blank_nameless (line : jsstring) :
  Menus.isBlank line = true ->
  trim (nth 0 (Menus.parseCSVLine line) []) = [].
Proof.
  unfold Menus.isBlank. intros H. apply streq_true_iff in H.
  pose proof (trim_nil _ H) as Hws. rewrite forallb_forall in Hws.
  rewrite parseCSVLine_one_field; [exact H | |].
  - intros Hin. apply Hws in Hin. discriminate Hin.
  - destruct line as [|c r]; [exact I|].
    intros ->. specialize (Hws dquote (or_introl eq_refl)). discriminate Hws.
Qed.

(** ** The two [stableId]s *)

Lemma hex8_length (w : Z) : length (MenusSha.hex8 w) = 8%nat.
Proof. reflexivity. Qed.

Lemma sha256hex_length (msg : list Z) :
  length (MenusSha.sha256hex msg) = 64%nat.
Proof.
  unfold MenusSha.sha256hex.
  destruct (MenusSha.blocks _ _ _) as [[[[[[[a b] c] d] e] f] g] h].
  rewrite !length_app, !hex8_length. reflexivity.
Qed.

Lemma MenusSha_stableId_length (name mainGenre carb : jsstring) :
  length (MenusSha.stableId name mainGenre carb) = 12%nat.
Proof.
  unfold MenusSha.stableId. rewrite length_firstn, sha256hex_length.
  reflexivity.
Qed.

Lemma radixDigits_length (fuel k : nat) (n : Z) (acc : jsstring) :
  0 <= n < 36 ^ Z.of_nat k -> (1 <= k)%nat ->
  (length (MenusMix.radixDigits fuel 36 n acc) <= k + length acc)%nat.
Proof.
  revert k n acc. induction fuel as [|fuel IH]; intros k n acc Hn Hk; simpl.
  - lia.
  - destruct (n <? 36) eqn:E; simpl; [lia|].
    apply Z.ltb_ge in E.
    destruct k as [|[|k]]; [lia | simpl in Hn; lia |].
    specialize (IH (S k) (n / 36) (MenusMix.digitChar (n mod 36) :: acc)).
    simpl length in IH.
    assert (Hdiv : 0 <= n / 36 < 36 ^ Z.of_nat (S k)).
    { split; [apply Z.div_pos; lia|].
      apply Z.div_lt_upper_bound; [lia|].
      replace (36 * 36 ^ Z.of_nat (S k)) with (36 ^ Z.of_nat (S (S k)));
        [lia|].
      rewrite (Nat2Z.inj_succ (S k)), Z.pow_succ_r by lia. reflexivity. }
    specialize (IH Hdiv ltac:(lia)). lia.
Qed.

(** The fuel of [toStringRadix] is enough: more of it changes nothing. *)
Lemma radixDigits_fuel (fuel extra : nat) (n : Z) (acc : jsstring) :
  0 <= n < 2 ^ Z.of_nat fuel -> (1 <= fuel)%nat ->
  MenusMix.radixDigits (fuel + extra) 36 n acc
    = MenusMix.radixDigits fuel 36 n acc.
Proof.
  revert n acc. induction fuel as [|fuel IH]; intros n acc Hn Hfuel; [lia|].
  simpl. destruct (n <? 36) eqn:E; [reflexivity|].
  apply Z.ltb_ge in E.
  assert (Hhalf : 0 <= n / 36 < 2 ^ Z.of_nat fuel).
  { split; [apply Z.div_pos; lia|].
    apply Z.div_lt_upper_bound; [lia|].
    rewrite Nat2Z.inj_succ, Z.pow_succ_r in Hn by lia. lia. }
  apply IH; [exact Hhalf|].
  destruct fuel; [simpl in Hn; lia | lia].
Qed.

Lemma toStringRadix_fuel (n : Z) (extra : nat) :
  0 <= n ->
  MenusMix.radixDigits (S (Z.to_nat (Z.log2 n)) + extra) 36 n []
    = MenusMix.toStringRadix 36 n.
Proof.
  intros Hn. unfold MenusMix.toStringRadix.
  apply radixDigits_fuel; [|lia].
  rewrite Nat2Z.inj_succ, Z2Nat.id by apply Z.log2_nonneg.
  split; [exact Hn|].
  destruct (Z.eq_dec n 0) as [->|Hpos]; [reflexivity|].
  apply Z.log2_spec. lia.
Qed.

Lemma combined_range (h1 h2 : Z) :
  0 <= 4294967296 * MenusMix.and32 2097151 h2 + MenusMix.ushr32 h1 0 < 2 ^ 53.
Proof.
  unfold MenusMix.and32, MenusMix.ushr32, MenusMix.toUint32.
  change (MenusMix.toInt32 2097151) with (Z.ones 21).
  rewrite Z.land_comm, Z.land_ones, Z.shiftr_0_r by lia.
  pose proof (Z.mod_pos_bound (MenusMix.toInt32 h2) (2 ^ 21) ltac:(lia)).
  pose proof (Z.mod_pos_bound h1 4294967296 ltac:(lia)).
  change (2 ^ 21) with 2097152 in *. change (2 ^ 53) with 9007199254740992.
  lia.
Qed.

Lemma combinedOf_range (str : jsstring) :
  0 <= MenusMix.combinedOf str < 2 ^ 53.
Proof.
  unfold MenusMix.combinedOf.
  destruct (MenusMix.mixLoop str _) as [h1 h2].
  cbv zeta. apply combined_range.
Qed.

Lemma MenusMix_stableId_length (name mainGenre carb : jsstring) :
  length (MenusMix.stableId name mainGenre carb) = 11%nat.
Proof.
  unfold MenusMix.stableId, MenusMix.padStart0, MenusMix.toStringRadix.
  cbv zeta.
  set (n := MenusMix.combinedOf _).
  pose proof (combinedOf_range (name ++ [TAB] ++ mainGenre ++ [TAB] ++ carb))
    as Hn. fold n in Hn.
  assert (H36 : 0 <= n < 36 ^ Z.of_nat 11).
  { change (36 ^ Z.of_nat 11) with 131621703842267136.
    change (2 ^ 53) with 9007199254740992 in Hn. lia. }
  pose proof (radixDigits_length (S (Z.to_nat (Z.log2 n))) 11 n [] H36
                ltac:(lia)) as Hlen.
  change (length (@nil Z)) with 0%nat in Hlen.
  rewrite length_app, repeat_length. lia.
Qed.

(** ** The loader: one row *)

Import Menus.

Lemma rowErrorsOf_length (mainGenre carb : option jsstring) :
  (0 <? length (rowErrorsOf mainGenre carb))%nat
  = negb (isMainGenre (orEmpty mainGenre) && isCarb (orEmpty carb)).
Proof.
  unfold rowErrorsOf.
  destruct (isMainGenre (orEmpty mainGenre)), (isCarb (orEmpty carb));
    reflexivity.
Qed.

(** Every violation of a row is in its [rowErrors]: the check of [carb]
    is made whatever the check of [mainGenre] gave. *)
Lemma rowErrorsOf_complete (mainGenre carb : option jsstring) :
  (isMainGenre (orEmpty mainGenre) = false ->
   In (mainGenreError mainGenre) (rowErrorsOf mainGenre carb))
  /\ (isCarb (orEmpty carb) = false ->
      In (carbError carb) (rowErrorsOf mainGenre carb)).
Proof.
  unfold rowErrorsOf. split; intros ->; simpl.
  - left. reflexivity.
  - apply in_or_app. right. left. reflexivity.
Qed.

Lemma column_0 (line : jsstring) :
  column 0 line = Some (trim (nth 0 (parseCSVLine line) [])).
Proof.
  unfold column, fields.
  destruct (parseCSVLine_cons line) as (first & rest & ->). reflexivity.
Qed.

Lemma invalidRow_not_valid (line : jsstring) :
  invalidRow line = true -> validRow line = false.
Proof.
  unfold invalidRow, validRow.
  destruct (hasName line), (validFields line); simpl; congruence.
Qed.

Section RowLoop.

Variable stableId : jsstring -> jsstring -> jsstring -> jsstring.

(** A turn of the loop does one of three things. *)
Lemma rowStep_cases (i : nat) (line : jsstring)
    (menus : list Menu) (errors : list jsstring) :
  rowStep stableId i line (menus, errors) =
    if invalidRow line then (menus, errors ++ [rowError ((i + 1)%nat, line)])
    else if validRow line then (menus ++ [recordOf stableId line], errors)
    else (menus, errors).
Proof.
  destruct (isBlank line) eqn:Eblank.
  - pose proof (blank_nameless _ Eblank) as Hname.
    unfold invalidRow, validRow, hasName. rewrite column_0, Hname.
    unfold rowStep. rewrite Eblank. reflexivity.
  - unfold rowStep, invalidRow, validRow, hasName, validFields, rowError,
      recordOf, column, fields.
    rewrite Eblank. cbn [fst snd].
    generalize (nth_error (map trim (parseCSVLine line)) 0)
               (nth_error (map trim (parseCSVLine line)) 1)
               (nth_error (map trim (parseCSVLine line)) 2).
    intros name mainGenre carb.
    destruct name as [[|c name]|]; try reflexivity.
    rewrite rowErrorsOf_length.
    destruct (isMainGenre _ && isCarb _); reflexivity.
Qed.

(** The loop in one go: the records of the valid rows, and the messages of
    the invalid ones with their line numbers, both in the order of the
    text. *)
Lemma rowLoop_spec (lines : list jsstring) :
  forall (i : nat) (menus : list Menu) (errors : list jsstring),
  rowLoop stableId i lines (menus, errors) =
    (menus ++ map (recordOf stableId) (filter validRow lines),
     errors ++ map rowError
       (filter (fun row => invalidRow (snd row))
               (combine (seq (i + 1) (length lines)) lines))).
Proof.
  induction lines as [|line lines IH]; intros i menus errors.
  - simpl. rewrite !app_nil_r. reflexivity.
  - cbn [rowLoop length seq combine filter map snd].
    rewrite rowStep_cases.
    destruct (invalidRow line) eqn:Ebad.
    + rewrite (invalidRow_not_valid _ Ebad), IH. cbn [map Nat.add].
      rewrite <- app_assoc. reflexivity.
    + destruct (validRow line) eqn:Egood; rewrite IH; cbn [map Nat.add].
      * rewrite <- app_assoc. reflexivity.
      * reflexivity.
Qed.

End RowLoop.

(** ** The loader: header and rows *)

Lemma header_check (header : list jsstring) :
  (length header <? length expectedHeader)%nat
  || negb (everyFrom 0 expectedHeader header) = false
  <-> firstn 3 header = expectedHeader.
Proof.
  unfold expectedHeader.
  destruct header as [|a [|b [|c rest]]]; simpl;
    try (split; discriminate).
  rewrite negb_false_iff, andb_true_r, !andb_true_iff, !streq_true_iff.
  split; [intros (-> & -> & ->); reflexivity|].
  intros H. inversion H. auto.
Qed.

Lemma findIndex_all_blank (lines : list jsstring) :
  (forall l, In l lines -> isBlank l = true) ->
  findIndex (fun l => negb (isBlank l)) lines = None.
Proof.
  induction lines as [|l lines IH]; intros H; simpl; [reflexivity|].
  rewrite (H l (or_introl eq_refl)), IH; [reflexivity|].
  intros l' Hl'. apply H. right. exact Hl'.
Qed.

Lemma findIndex_first_nonblank (blanks : list jsstring) (h : jsstring)
    (rest : list jsstring) :
  (forall l, In l blanks -> isBlank l = true) -> isBlank h = false ->
  findIndex (fun l => negb (isBlank l)) (blanks ++ h :: rest)
    = Some (length blanks).
Proof.
  intros Hblanks Hh. induction blanks as [|l blanks IH]; simpl.
  - rewrite Hh. reflexivity.
  - rewrite (Hblanks l (or_introl eq_refl)), IH; [reflexivity|].
    intros l' Hl'. apply Hblanks. right. exact Hl'.
Qed.

(** Where [findIndex] stops there is a line that is not blank, and all the
    lines before it are. *)
Lemma findIndex_Some (lines : list jsstring) (headerIdx : nat) :
  findIndex (fun l => negb (isBlank l)) lines = Some headerIdx ->
  exists blanks h rest,
    lines = blanks ++ h :: rest /\ length blanks = headerIdx
    /\ (forall l, In l blanks -> isBlank l = true) /\ isBlank h = false.
Proof.
  revert headerIdx. induction lines as [|l lines IH]; intros headerIdx; simpl;
    [discriminate|].
  destruct (isBlank l) eqn:El; simpl.
  - destruct (findIndex _ lines) as [k|]; [|discriminate].
    intros E. injection E as <-.
    destruct (IH k eq_refl) as (blanks & h & rest & -> & <- & Hb & Hh).
    exists (l :: blanks), h, rest. repeat split; auto.
    intros l' [<-|Hl']; auto.
  - intros E. injection E as <-.
    exists [], l, lines. repeat split; auto; intros l' [].
Qed.

Lemma skipn_combine (A B : Type) (n : nat) (l : list A) (l' : list B) :
  skipn n (combine l l') = combine (skipn n l) (skipn n l').
Proof.
  revert l l'. induction n as [|n IH]; intros l l'; [reflexivity|].
  destruct l as [|x l]; [reflexivity|].
  destruct l' as [|y l']; simpl.
  - destruct (skipn n l); reflexivity.
  - apply IH.
Qed.

(** The data rows below the header, with their line numbers. *)
Lemma skipn_numbered (k : nat) (lines : list jsstring) :
  skipn k (numbered lines)
  = combine (seq (k + 1) (length (skipn k lines))) (skipn k lines).
Proof.
  unfold numbered.
  rewrite skipn_combine, skipn_seq, length_skipn.
  rewrite (Nat.add_comm 1 k). reflexivity.
Qed.

Section Loader.

Variable stableId : jsstring -> jsstring -> jsstring -> jsstring.

(** The loader below a header that passes the check. *)
Lemma parseLines_rows (lines : list jsstring) (headerIdx : nat) :
  findIndex (fun l => negb (isBlank l)) lines = Some headerIdx ->
  firstn 3 (fields (nth headerIdx lines [])) = expectedHeader ->
  parseLines stableId lines =
    let bad := filter (fun row => invalidRow (snd row))
                      (skipn (headerIdx + 1) (numbered lines)) in
    if (0 <? length bad)%nat then Throw (validationMessage (map rowError bad))
    else Return (map (recordOf stableId)
                     (filter validRow (skipn (headerIdx + 1) lines))).
Proof.
  intros Hidx Hheader. unfold parseLines. rewrite Hidx.
  apply header_check in Hheader. unfold fields in Hheader.
  rewrite Hheader, rowLoop_spec, skipn_numbered.
  cbn [app]. rewrite length_map. reflexivity.
Qed.

Lemma parseLines_bad_header (lines : list jsstring) (headerIdx : nat) :
  findIndex (fun l => negb (isBlank l)) lines = Some headerIdx ->
  firstn 3 (fields (nth headerIdx lines [])) <> expectedHeader ->
  parseLines stableId lines
    = Throw (headerMessage (fields (nth headerIdx lines []))).
Proof.
  intros Hidx Hheader. unfold parseLines. rewrite Hidx.
  fold (fields (nth headerIdx lines [])).
  destruct (_ || _) eqn:E; [reflexivity|].
  apply header_check in E. contradiction.
Qed.

End Loader.

(** The three messages begin differently. *)
Lemma validationMessage_not_malformed (errors : list jsstring) :
  validationMessage errors <> emptyMessage
  /\ forall header, validationMessage errors <> headerMessage header.
Proof.
  split; [|intros header]; intros H;
    apply (f_equal (firstn 11)) in H; vm_compute in H;
    discriminate H.
Qed.

Lemma numbered_nth (lines : list jsstring) (row : nat * jsstring) :
  In row (numbered lines) ->
  (1 <= fst row)%nat /\ nth_error lines (fst row - 1) = Some (snd row).
Proof.
  unfold numbered. generalize 1%nat as s.
  induction lines as [|l lines IH]; intros s; simpl; [intros []|].
  intros [<-|Hin]; simpl.
  - rewrite Nat.sub_diag. split; [lia | reflexivity].
  - destruct (IH (S s) Hin) as [Hle Hnth]. split; [lia|].
    replace (fst row - s)%nat with (S (fst row - S s)) by lia.
    exact Hnth.
Qed.

(** *** The messages *)

Lemma join_cons (sep x y : jsstring) (rest : list jsstring) :
  join sep (x :: y :: rest) = x ++ sep ++ join sep (y :: rest).
Proof. reflexivity. Qed.

Lemma mentions_refl (x : jsstring) : mentions x x.
Proof. exists [], []. rewrite app_nil_r. reflexivity. Qed.

Lemma mentions_app (x before after : jsstring) :
  mentions x (before ++ x ++ after).
Proof. exists before, after. reflexivity. Qed.

Lemma mentions_inside (x y before after : jsstring) :
  mentions x y -> mentions x (before ++ y ++ after).
Proof.
  intros (b & a & ->). exists (before ++ b), (a ++ after).
  rewrite <- !app_assoc. reflexivity.
Qed.

Lemma mentions_after (x y before : jsstring) :
  mentions x y -> mentions x (before ++ y).
Proof.
  intros (b & a & ->). exists (before ++ b), a.
  rewrite <- !app_assoc. reflexivity.
Qed.

Lemma mentions_trans (x y z : jsstring) :
  mentions x y -> mentions y z -> mentions x z.
Proof.
  intros Hxy (b & a & ->). apply mentions_inside. exact Hxy.
Qed.

Lemma mentions_join (sep x : jsstring) (xs : list jsstring) :
  In x xs -> mentions x (join sep xs).
Proof.
  induction xs as [|y xs IH]; [intros []|].
  destruct xs as [|z xs].
  - intros [<-|[]]. apply mentions_refl.
  - rewrite join_cons. intros [<-|Hin].
    + apply (mentions_app y []).
    + apply mentions_after. apply mentions_after. apply IH. exact Hin.
Qed.

Lemma readDecimal_digits (u : Decimal.uint) (acc : nat) :
  fold_left (fun acc c => (acc * 10 + Z.to_nat (c - 48))%nat) (digits u) acc
  = Nat.of_uint_acc u acc.
Proof.
  revert acc. induction u; intros acc; simpl; [reflexivity|..];
    rewrite IHu, Nat.tail_mul_spec; f_equal; lia.
Qed.

(** [showNat] writes its number in decimal. *)
Lemma readDecimal_showNat (n : nat) : readDecimal (showNat n) = n.
Proof.
  unfold readDecimal, showNat. rewrite readDecimal_digits.
  apply DecimalNat.Unsigned.of_to.
Qed.

(** The messages the loader builds are those the specification has. *)
Lemma rowError_report (row : nat * jsstring) : rowError row = rowReport row.
Proof.
  unfold rowError, rowReport, rowMessage, rowErrorsOf, violations.
  destruct (isMainGenre (orEmpty (column 1 (snd row))));
    destruct (isCarb (orEmpty (column 2 (snd row)))); reflexivity.
Qed.

Lemma validationMessage_report (rows : list (nat * jsstring)) :
  validationMessage (map rowError rows) = validationReport rows.
Proof.
  unfold validationMessage, validationReport.
  rewrite (map_ext _ _ rowError_report). reflexivity.
Qed.

Lemma headerMessage_report (actual : list jsstring) :
  headerMessage actual = headerReport actual.
Proof. reflexivity. Qed.

Lemma emptyMessage_report : emptyMessage = emptyReport.
Proof. vm_compute. reflexivity. Qed.

Lemma emptyReport_text :
  emptyReport = lit "menus.csv is empty or contains only blank lines.".
Proof. vm_compute. reflexivity. Qed.

Lemma headerReport_text (actual : list jsstring) :
  headerReport actual
  = lit "menus.csv: unexpected header. Expected [name,mainGenre,carb] but got ["
    ++ join (lit ",") actual ++ lit "]".
Proof. vm_compute. reflexivity. Qed.

Lemma headerReport_parts (actual : list jsstring) :
  headerReport actual
  = lit "menus.csv: unexpected header. "
    ++ lit "Expected [name,mainGenre,carb]" ++ lit " but "
    ++ lit "got [" ++ join (lit ",") actual ++ lit "]".
Proof.
  assert (P : lit "menus.csv: unexpected header. Expected [name,mainGenre,carb] but got ["
              = lit "menus.csv: unexpected header. "
                ++ lit "Expected [name,mainGenre,carb]" ++ lit " but "
                ++ lit "got [")
    by (vm_compute; reflexivity).
  rewrite headerReport_text, P, <- !app_assoc. reflexivity.
Qed.

Lemma violations_mentioned (line : jsstring) :
  (isMainGenre (orEmpty (column 1 line)) = false ->
   In (genreViolation (column 1 line)) (violations line))
  /\ (isCarb (orEmpty (column 2 line)) = false ->
      In (carbViolation (column 2 line)) (violations line)).
Proof.
  unfold violations. split; intros ->.
  - left. reflexivity.
  - apply in_or_app. right. left. reflexivity.
Qed.

(** C5. Below a header that passes the check, let [bad] be the data rows,
    with their 1-based line numbers, that have a name and a [mainGenre] or a
    [carb] outside its vocabulary. If there is one at least, the load throws
    the validation error, and nothing is returned. The message thrown is
    the heading followed by one line per row of [bad], in the order of the
    text; the line of a row is written in the message, begins with [Row],
    the line number of the row in decimal and a colon, and has in it the
    violation of [mainGenre] if that field is outside its vocabulary and the
    violation of [carb] if that one is, both when both are, each with the
    value found. If there is no such row, the load returns the records of
    the valid rows, which may be none. *)
Theorem parseText_reports_every_invalid_row
    (stableId : jsstring -> jsstring -> jsstring -> jsstring)
    (raw : jsstring) (headerIdx : nat) :
  findIndex (fun l => negb (isBlank l)) (splitLines raw) = Some headerIdx ->
  firstn 3 (fields (nth headerIdx (splitLines raw) []))
    = [lit "name"; lit "mainGenre"; lit "carb"] ->
  let rows := skipn (headerIdx + 1) (numbered (splitLines raw)) in
  let bad := filter (fun row => invalidRow (snd row)) rows in
  (forall row, In row rows ->
     (headerIdx + 1 < fst row)%nat
     /\ nth_error (splitLines raw) (fst row - 1) = Some (snd row))
  /\ (bad <> [] ->
      parseText stableId raw
        = Throw (lit "menus.csv validation failed:" ++ [LF]
                 ++ join [LF] (map rowReport bad))
      /\ ValidationFailure (parseText stableId raw)
      /\ forall row, In row bad ->
           mentions (rowReport row)
             (lit "menus.csv validation failed:" ++ [LF]
              ++ join [LF] (map rowReport bad))
           /\ rowReport row
              = lit "Row " ++ showNat (fst row) ++ lit ": "
                ++ join (lit "; ") (violations (snd row))
           /\ readDecimal (showNat (fst row)) = fst row
           /\ (isMainGenre (orEmpty (column 1 (snd row))) = false ->
               mentions
                 (lit "mainGenre=" ++ [dquote] ++ show (column 1 (snd row))
                  ++ [dquote]
                  ++ lit " is not one of [和食,洋食,中華,その他,デザート]")
                 (rowReport row))
           /\ (isCarb (orEmpty (column 2 (snd row))) = false ->
               mentions
                 (lit "carb=" ++ [dquote] ++ show (column 2 (snd row))
                  ++ [dquote] ++ lit " is not one of [米,麺,どちらでもない]")
                 (rowReport row)))
  /\ (bad = [] ->
      parseText stableId raw
        = Return (map (recordOf stableId)
                      (filter validRow (skipn (headerIdx + 1) (splitLines raw))))).
Proof.
  intros Hidx Hheader rows bad.
  pose proof (parseLines_rows stableId _ _ Hidx Hheader) as Hparse.
  cbv zeta in Hparse. fold rows in Hparse. fold bad in Hparse.
  fold (parseText stableId raw) in Hparse.
  split; [|split].
  - intros row Hrow. split.
    + unfold rows in Hrow. rewrite skipn_numbered in Hrow.
      destruct row as [n l]. apply in_combine_l in Hrow.
      apply in_seq in Hrow. simpl. lia.
    + apply numbered_nth. eapply In_skipn_list. exact Hrow.
  - intros Hbad.
    assert (Hlen : (0 <? length bad)%nat = true).
    { destruct bad; [congruence | reflexivity]. }
    rewrite Hlen in Hparse.
    split; [rewrite Hparse, validationMessage_report; reflexivity|].
    split.
    + exists (map rowError bad). split; [|exact Hparse].
      destruct bad; [congruence | discriminate].
    + intros row Hrow.
      split.
      { rewrite app_assoc. apply mentions_after.
        apply mentions_join. apply in_map. exact Hrow. }
      split; [reflexivity|]. split; [apply readDecimal_showNat|].
      destruct (violations_mentioned (snd row)) as [Hg Hc].
      split; intros Hviol.
      * unfold rowReport. do 3 apply mentions_after.
        apply mentions_join. exact (Hg Hviol).
      * unfold rowReport. do 3 apply mentions_after.
        apply mentions_join. exact (Hc Hviol).
  - intros Hbad. rewrite Hbad in Hparse. exact Hparse.
Qed.

Lemma parseText_reports_every_invalid_row_witness :
  findIndex (fun l => negb (isBlank l)) (splitLines Sample.badCatalog) = Some 0%nat
  /\ firstn 3 (fields (nth 0 (splitLines Sample.badCatalog) []))
     = [lit "name"; lit "mainGenre"; lit "carb"]
  /\ parseText MenusMix.stableId Sample.badCatalog
     = Throw (lit "menus.csv validation failed:" ++ [LF]
        ++ lit "Row 3: mainGenre=" ++ [dquote] ++ lit "伊" ++ [dquote]
        ++ lit " is not one of [和食,洋食,中華,その他,デザート]; carb="
        ++ [dquote] ++ lit "パン" ++ [dquote]
        ++ lit " is not one of [米,麺,どちらでもない]" ++ [LF]
        ++ lit "Row 5: mainGenre=" ++ [dquote] ++ lit "undefined" ++ [dquote]
        ++ lit " is not one of [和食,洋食,中華,その他,デザート]; carb="
        ++ [dquote] ++ lit "undefined" ++ [dquote]
        ++ lit " is not one of [米,麺,どちらでもない]").
Proof.
  assert (Hidx : findIndex (fun l => negb (isBlank l))
                   (splitLines Sample.badCatalog) = Some 0%nat)
    by reflexivity.
  assert (Hheader : firstn 3 (fields (nth 0 (splitLines Sample.badCatalog) []))
                    = [lit "name"; lit "mainGenre"; lit "carb"])
    by reflexivity.
  split; [exact Hidx|]. split; [exact Hheader|].
  destruct (parseText_reports_every_invalid_row
              MenusMix.stableId Sample.badCatalog 0 Hidx Hheader)
    as (_ & Hbad & _).
  destruct Hbad as [E _]; [vm_compute; discriminate|].
  rewrite E. vm_compute. reflexivity.
Defined.

Lemma Throw_inj {A : Type} (a b : jsstring) :
  @Throw A a = Throw b -> a = b.
Proof. intros H. inversion H. reflexivity. Qed.

Lemma validationMessage_not_report (errors : list jsstring) :
  validationMessage errors <> emptyReport
  /\ forall actual, validationMessage errors <> headerReport actual.
Proof.
  split; [|intros actual]; intros H;
    apply (f_equal (firstn 11)) in H; vm_compute in H;
    discriminate H.
Qed.

(** C6. The header is the first line that is not blank. A text with no such
    line is refused as empty. If the trimmed fields of the header do not
    begin with [name], [mainGenre], [carb], the text is refused with a
    message in which the header expected, [name,mainGenre,carb], and the
    header found, its trimmed fields with commas between them, are both
    written. If they do, whatever the number of blank lines above the header
    and whatever fields follow the first three, the load is not refused for
    its header: it returns records or reports invalid rows. *)
Theorem parseText_header
    (stableId : jsstring -> jsstring -> jsstring -> jsstring)
    (raw : jsstring) :
  ((forall l, In l (splitLines raw) -> isBlank l = true) ->
   parseText stableId raw
     = Throw (lit "menus.csv is empty or contains only blank lines.")
   /\ MalformedCatalog (parseText stableId raw))
  /\ (forall blanks h rest,
      splitLines raw = blanks ++ h :: rest ->
      (forall l, In l blanks -> isBlank l = true) ->
      isBlank h = false ->
      (firstn 3 (fields h) <> [lit "name"; lit "mainGenre"; lit "carb"] ->
       parseText stableId raw
         = Throw (lit "menus.csv: unexpected header. Expected [name,mainGenre,carb] but got ["
                  ++ join (lit ",") (fields h) ++ lit "]")
       /\ mentions (lit "Expected [name,mainGenre,carb]")
                   (headerReport (fields h))
       /\ mentions (lit "got [" ++ join (lit ",") (fields h) ++ lit "]")
                   (headerReport (fields h))
       /\ MalformedCatalog (parseText stableId raw))
      /\ (firstn 3 (fields h) = [lit "name"; lit "mainGenre"; lit "carb"] ->
          ~ MalformedCatalog (parseText stableId raw)
          /\ ((exists menus, parseText stableId raw = Return menus)
              \/ ValidationFailure (parseText stableId raw)))).
Proof.
  split.
  - intros Hblank.
    assert (E : parseText stableId raw = Throw emptyReport).
    { unfold parseText, parseLines.
      rewrite (findIndex_all_blank _ Hblank), emptyMessage_report.
      reflexivity. }
    split; [rewrite <- emptyReport_text; exact E | left; exact E].
  - intros blanks h rest Hlines Hblanks Hh.
    pose proof (findIndex_first_nonblank blanks h rest Hblanks Hh) as Hidx.
    rewrite <- Hlines in Hidx.
    assert (Hnth : nth (length blanks) (splitLines raw) [] = h).
    { rewrite Hlines. apply nth_middle. }
    split; intros Hheader.
    + rewrite <- Hnth in Hheader.
      pose proof (parseLines_bad_header stableId _ _ Hidx Hheader) as E.
      rewrite Hnth, headerMessage_report in E.
      fold (parseText stableId raw) in E.
      split; [rewrite <- headerReport_text; exact E|]. split; [|split].
      * rewrite headerReport_parts. apply mentions_app.
      * rewrite headerReport_parts. do 3 apply mentions_after.
        apply mentions_refl.
      * right. exists (fields h). exact E.
    + rewrite <- Hnth in Hheader.
      pose proof (parseLines_rows stableId _ _ Hidx Hheader) as E.
      cbv zeta in E. fold (parseText stableId raw) in E.
      destruct (filter _ _) as [|row bad] in E.
      * simpl in E. split; [|left; eexists; exact E].
        intros [E'|[actual E']]; rewrite E in E'; discriminate E'.
      * change (parseText stableId raw
                = Throw (validationMessage (map rowError (row :: bad)))) in E.
        assert (Hv : ValidationFailure (parseText stableId raw)).
        { eexists. split; [|exact E]. discriminate. }
        split; [|right; exact Hv].
        destruct (validationMessage_not_report
                    (map rowError (row :: bad))) as [Hempty Hhead].
        intros [E'|[actual E']]; rewrite E in E'; apply Throw_inj in E';
          [exact (Hempty E') | exact (Hhead actual E')].
Qed.

Lemma parseText_header_witness :
  splitLines Sample.shortHeaderCatalog
    = [] ++ lit "name,mainGenre" :: [lit "カレー,洋食,米"]
  /\ (forall l, In l [] -> isBlank l = true)
  /\ isBlank (lit "name,mainGenre") = false
  /\ firstn 3 (fields (lit "name,mainGenre"))
     <> [lit "name"; lit "mainGenre"; lit "carb"]
  /\ parseText MenusMix.stableId Sample.shortHeaderCatalog
     = Throw (lit "menus.csv: unexpected header. Expected [name,mainGenre,carb] but got [name,mainGenre]").
Proof.
  assert (Hlines : splitLines Sample.shortHeaderCatalog
            = [] ++ lit "name,mainGenre" :: [lit "カレー,洋食,米"])
    by reflexivity.
  assert (Hblanks : forall l : jsstring, In l [] -> isBlank l = true)
    by (intros l []).
  assert (Hh : isBlank (lit "name,mainGenre") = false) by reflexivity.
  assert (Hheader : firstn 3 (fields (lit "name,mainGenre"))
                    <> [lit "name"; lit "mainGenre"; lit "carb"])
    by (vm_compute; discriminate).
  split; [exact Hlines|]. split; [exact Hblanks|]. split; [exact Hh|].
  split; [exact Hheader|].
  destruct (proj1 (proj2 (parseText_header MenusMix.stableId
    Sample.shortHeaderCatalog) _ _ _ Hlines Hblanks Hh) Hheader) as [E _].
  rewrite E. vm_compute. reflexivity.
Defined.

(** Three blank lines above the header and a fourth field on it: the load
    goes through. *)
Example parseText_leading_blanks :
  parseText MenusMix.stableId Sample.leadingBlanksCatalog
    = Return [Sample.curry].
Proof. reflexivity. Qed.

(** The end-to-end example of the specification. *)
Example parseText_catalog :
  parseText MenusMix.stableId Sample.catalog = Return Sample.menus.
Proof. reflexivity. Qed.

(** ** Rows without a name, rows with missing fields *)

Lemma findIndex_app (A : Type) (p : A -> bool) (pre post : list A) (k : nat) :
  findIndex p pre = Some k ->
  findIndex p (pre ++ post) = Some k /\ (k < length pre)%nat.
Proof.
  revert k. induction pre as [|x pre IH]; intros k; simpl; [discriminate|].
  destruct (p x).
  - intros E. injection E as <-. split; [reflexivity | lia].
  - destruct (findIndex p pre) as [j|]; [|discriminate].
    intros E. injection E as <-.
    destruct (IH j eq_refl) as [-> Hlt]. split; [reflexivity | lia].
Qed.

Lemma existsb_findIndex (A : Type) (p : A -> bool) (l : list A) :
  existsb p l = true -> exists k, findIndex p l = Some k.
Proof.
  induction l as [|x l IH]; simpl; [discriminate|].
  destruct (p x); simpl; [eauto|].
  intros H. destruct (IH H) as [k ->]. simpl. eauto.
Qed.

Lemma skipn_app_le (A : Type) (k : nat) (pre post : list A) :
  (k <= length pre)%nat -> skipn k (pre ++ post) = skipn k pre ++ post.
Proof.
  intros Hk. rewrite skipn_app.
  replace (k - length pre)%nat with 0%nat by lia. reflexivity.
Qed.

Section Rows.

Variable stableId : jsstring -> jsstring -> jsstring -> jsstring.

Lemma rowLoop_app (pre post : list jsstring) :
  forall (i : nat) (st : list Menu * list jsstring),
  rowLoop stableId i (pre ++ post) st
    = rowLoop stableId (i + length pre) post (rowLoop stableId i pre st).
Proof.
  induction pre as [|l pre IH]; intros i st; simpl.
  - rewrite Nat.add_0_r. reflexivity.
  - rewrite IH. f_equal. lia.
Qed.

Lemma rowStep_nameless (i : nat) (line : jsstring)
    (st : list Menu * list jsstring) :
  trim (nth 0 (parseCSVLine line) []) = [] ->
  rowStep stableId i line st = st.
Proof.
  intros Hname. destruct st as [menus errors]. rewrite rowStep_cases.
  unfold invalidRow, validRow, hasName.
  rewrite column_0, Hname. reflexivity.
Qed.

(** The loader on a text whose header is in [pre]: the state of the loop
    when it reaches the line after [pre] is the same whatever follows. *)
Lemma parseLines_split (pre post : list jsstring) (headerIdx : nat) :
  findIndex (fun l => negb (isBlank l)) pre = Some headerIdx ->
  parseLines stableId (pre ++ post) =
    let header := map trim (parseCSVLine (nth headerIdx pre [])) in
    if (length header <? length expectedHeader)%nat
       || negb (everyFrom 0 expectedHeader header)
    then Throw (headerMessage header)
    else
      let '(menus, errors) :=
        rowLoop stableId (length pre) post
          (rowLoop stableId (headerIdx + 1) (skipn (headerIdx + 1) pre)
             ([], [])) in
      if (0 <? length errors)%nat then Throw (validationMessage errors)
      else Return menus.
Proof.
  intros Hidx. destruct (findIndex_app _ _ pre post _ Hidx) as [Hidx' Hlt].
  unfold parseLines. rewrite Hidx'.
  rewrite app_nth1 by exact Hlt.
  rewrite skipn_app_le by lia. rewrite rowLoop_app, length_skipn.
  replace (headerIdx + 1 + (length pre - (headerIdx + 1)))%nat
    with (length pre) by lia.
  reflexivity.
Qed.

End Rows.

(** C7. A data row whose name is empty once trimmed leaves the records and
    the errors of the loop as they are, whatever its other fields; the load
    of the text gives what it gives with that row blanked out, so the row
    cannot make it fail. *)
Theorem nameless_row_is_skipped
    (stableId : jsstring -> jsstring -> jsstring -> jsstring)
    (raw : jsstring) (pre : list jsstring) (line : jsstring)
    (post : list jsstring) :
  splitLines raw = pre ++ line :: post ->
  existsb (fun l => negb (isBlank l)) pre = true ->
  trim (nth 0 (parseCSVLine line) []) = [] ->
  (forall i st, rowStep stableId i line st = st)
  /\ invalidRow line = false /\ validRow line = false
  /\ parseText stableId raw = parseLines stableId (pre ++ [] :: post).
Proof.
  intros Hlines Hpre Hname.
  assert (Hstep : forall i st, rowStep stableId i line st = st).
  { intros i st. apply rowStep_nameless. exact Hname. }
  split; [exact Hstep|].
  assert (HhasName : hasName line = false).
  { unfold hasName. rewrite column_0, Hname. reflexivity. }
  split; [unfold invalidRow; rewrite HhasName; reflexivity|].
  split; [unfold validRow; rewrite HhasName; reflexivity|].
  destruct (existsb_findIndex _ _ _ Hpre) as [headerIdx Hidx].
  unfold parseText. rewrite Hlines.
  rewrite !(parseLines_split stableId pre _ headerIdx Hidx).
  cbn [rowLoop]. rewrite Hstep.
  rewrite (rowStep_nameless stableId _ [] _ eq_refl). reflexivity.
Qed.

Lemma nameless_row_is_skipped_witness :
  splitLines Sample.badCatalog
    = [lit "name,mainGenre,carb"; lit "カレー,洋食,米"; lit "ピザ,伊,パン"]
      ++ lit " ,洋食,パン" :: [lit "うどん"]
  /\ existsb (fun l => negb (isBlank l))
       [lit "name,mainGenre,carb"; lit "カレー,洋食,米"; lit "ピザ,伊,パン"]
     = true
  /\ trim (nth 0 (parseCSVLine (lit " ,洋食,パン")) []) = []
  /\ forall i st, rowStep MenusMix.stableId i (lit " ,洋食,パン") st = st.
Proof.
  assert (H1 : splitLines Sample.badCatalog
    = [lit "name,mainGenre,carb"; lit "カレー,洋食,米"; lit "ピザ,伊,パン"]
      ++ lit " ,洋食,パン" :: [lit "うどん"]) by reflexivity.
  assert (H2 : existsb (fun l => negb (isBlank l))
       [lit "name,mainGenre,carb"; lit "カレー,洋食,米"; lit "ピザ,伊,パン"]
     = true) by reflexivity.
  assert (H3 : trim (nth 0 (parseCSVLine (lit " ,洋食,パン")) []) = [])
    by reflexivity.
  split; [exact H1|]. split; [exact H2|]. split; [exact H3|].
  exact (proj1 (nameless_row_is_skipped MenusMix.stableId Sample.badCatalog
    _ _ _ H1 H2 H3)).
Defined.

(** C10. A data row that has a name, and so is not blank, and has fewer
    than three fields: its missing fields are checked as the empty string,
    which is in neither vocabulary, so the row is invalid; the loop adds the
    message of the row to the errors and no record to the records, and the
    load of the whole text throws the validation error, with the message of
    the row under its line number. *)
Theorem short_row_is_invalid
    (stableId : jsstring -> jsstring -> jsstring -> jsstring)
    (raw : jsstring) (pre : list jsstring) (line : jsstring)
    (post : list jsstring) (headerIdx : nat) :
  splitLines raw = pre ++ line :: post ->
  findIndex (fun l => negb (isBlank l)) pre = Some headerIdx ->
  firstn 3 (fields (nth headerIdx pre [])) = expectedHeader ->
  trim (nth 0 (parseCSVLine line) []) <> [] ->
  (length (parseCSVLine line) < 3)%nat ->
  isBlank line = false
  /\ column 2 line = None
  /\ ((length (parseCSVLine line) < 2)%nat -> column 1 line = None)
  /\ orEmpty None = []
  /\ isMainGenre [] = false /\ isCarb [] = false
  /\ invalidRow line = true
  /\ In (carbError None) (rowErrorsOf (column 1 line) (column 2 line))
  /\ (forall i menus errors,
        rowStep stableId i line (menus, errors)
          = (menus, errors ++ [rowError ((i + 1)%nat, line)]))
  /\ (exists before after,
        parseText stableId raw
          = Throw (validationMessage
              (before ++ rowError ((length pre + 1)%nat, line) :: after)))
  /\ ValidationFailure (parseText stableId raw).
Proof.
  intros Hlines Hidx Hheader Hname Hshort.
  assert (Hblank : isBlank line = false).
  { destruct (isBlank line) eqn:E; [|reflexivity].
    apply blank_nameless in E. contradiction. }
  assert (Hc2 : column 2 line = None).
  { apply nth_error_None. unfold fields. rewrite length_map. lia. }
  assert (Hbad : invalidRow line = true).
  { unfold invalidRow, hasName, validFields.
    rewrite column_0, Hc2. simpl.
    apply streq_false_iff in Hname. rewrite Hname, andb_false_r.
    reflexivity. }
  assert (Hstep : forall i menus errors,
            rowStep stableId i line (menus, errors)
              = (menus, errors ++ [rowError ((i + 1)%nat, line)])).
  { intros i menus errors. rewrite rowStep_cases, Hbad. reflexivity. }
  assert (Hthrow : exists before after,
            parseText stableId raw
              = Throw (validationMessage
                  (before ++ rowError ((length pre + 1)%nat, line) :: after))).
  { unfold parseText. rewrite Hlines.
    rewrite (parseLines_split stableId pre _ headerIdx Hidx). cbv zeta.
    apply header_check in Hheader. unfold fields in Hheader.
    rewrite Hheader.
    destruct (rowLoop stableId (headerIdx + 1) _ _) as [menus errors].
    cbn [rowLoop]. rewrite Hstep, rowLoop_spec.
    rewrite <- app_assoc. cbn [app].
    eexists errors, _.
    rewrite length_app. cbn [length].
    replace (0 <? _)%nat with true by (symmetry; apply Nat.ltb_lt; lia).
    reflexivity. }
  split; [exact Hblank|]. split; [exact Hc2|]. split.
  { intros Hone. apply nth_error_None. unfold fields.
    rewrite length_map. lia. }
  split; [reflexivity|]. split; [reflexivity|]. split; [reflexivity|].
  split; [exact Hbad|]. split.
  { rewrite Hc2. apply rowErrorsOf_complete. reflexivity. }
  split; [exact Hstep|]. split; [exact Hthrow|].
  destruct Hthrow as (before & after & E).
  eexists. split; [|exact E]. destruct before; discriminate.
Qed.

Lemma short_row_is_invalid_witness :
  splitLines Sample.badCatalog
    = [lit "name,mainGenre,carb"; lit "カレー,洋食,米"; lit "ピザ,伊,パン";
       lit " ,洋食,パン"] ++ lit "うどん" :: []
  /\ findIndex (fun l => negb (isBlank l))
       [lit "name,mainGenre,carb"; lit "カレー,洋食,米"; lit "ピザ,伊,パン";
        lit " ,洋食,パン"] = Some 0%nat
  /\ firstn 3 (fields (nth 0
       [lit "name,mainGenre,carb"; lit "カレー,洋食,米"; lit "ピザ,伊,パン";
        lit " ,洋食,パン"] [])) = expectedHeader
  /\ trim (nth 0 (parseCSVLine (lit "うどん")) []) <> []
  /\ (length (parseCSVLine (lit "うどん")) < 3)%nat
  /\ ValidationFailure (parseText MenusMix.stableId Sample.badCatalog).
Proof.
  assert (H1 : splitLines Sample.badCatalog
    = [lit "name,mainGenre,carb"; lit "カレー,洋食,米"; lit "ピザ,伊,パン";
       lit " ,洋食,パン"] ++ lit "うどん" :: []) by reflexivity.
  assert (H2 : findIndex (fun l => negb (isBlank l))
       [lit "name,mainGenre,carb"; lit "カレー,洋食,米"; lit "ピザ,伊,パン";
        lit " ,洋食,パン"] = Some 0%nat) by reflexivity.
  assert (H3 : firstn 3 (fields (nth 0
       [lit "name,mainGenre,carb"; lit "カレー,洋食,米"; lit "ピザ,伊,パン";
        lit " ,洋食,パン"] [])) = expectedHeader) by reflexivity.
  assert (H4 : trim (nth 0 (parseCSVLine (lit "うどん")) []) <> [])
    by (vm_compute; discriminate).
  assert (H5 : (length (parseCSVLine (lit "うどん")) < 3)%nat)
    by (vm_compute; lia).
  split; [exact H1|]. split; [exact H2|]. split; [exact H3|].
  split; [exact H4|]. split; [exact H5|].
  apply (short_row_is_invalid MenusMix.stableId Sample.badCatalog
           _ _ _ _ H1 H2 H3 H4 H5).
Defined.

(** ** The two versions of the file, side by side *)

Lemma parseText_sameButIds
    (f g : jsstring -> jsstring -> jsstring -> jsstring) (raw : jsstring) :
  sameButIds (parseText f raw) (parseText g raw).
Proof.
  unfold parseText, parseLines.
  destruct (findIndex _ _) as [headerIdx|]; [|reflexivity].
  cbv zeta. destruct (_ || _); [reflexivity|].
  rewrite !rowLoop_spec. cbn [app].
  destruct (0 <? _)%nat; [reflexivity|].
  simpl. rewrite !map_map. reflexivity.
Qed.

(** C4, as the source has it. The SHA-256 [stableId] gives 12 characters and
    the mixing one 11, so the two never give the same id; the two loaders
    throw the same error on the same text, or return records that are the
    same but for their ids. *)
Theorem stableId_versions (name mainGenre carb raw : jsstring) :
  length (MenusSha.stableId name mainGenre carb) = 12%nat
  /\ length (MenusMix.stableId name mainGenre carb) = 11%nat
  /\ MenusSha.stableId name mainGenre carb
     <> MenusMix.stableId name mainGenre carb
  /\ sameButIds (MenusSha.loadMenusFromPublicCSV raw)
                (MenusMix.parseMenusFromCSVText raw).
Proof.
  pose proof (MenusSha_stableId_length name mainGenre carb) as Hsha.
  pose proof (MenusMix_stableId_length name mainGenre carb) as Hmix.
  split; [exact Hsha|]. split; [exact Hmix|]. split.
  - intros E. rewrite E in Hsha. rewrite Hsha in Hmix. discriminate Hmix.
  - apply parseText_sameButIds.
Qed.

(** C4 as stated fails: for the first record of the sample catalog the two
    ids are [69eb11abfc04] and [11xef58qvsl], and the two loaders return
    different lists for the sample catalog. *)
Lemma stableId_versions_differ :
  MenusSha.stableId (lit "カレー") (lit "洋食") (lit "米") = lit "69eb11abfc04"
  /\ MenusMix.stableId (lit "カレー") (lit "洋食") (lit "米") = lit "11xef58qvsl"
  /\ MenusSha.stableId (lit "カレー") (lit "洋食") (lit "米")
     <> MenusMix.stableId (lit "カレー") (lit "洋食") (lit "米")
  /\ MenusSha.loadMenusFromPublicCSV Sample.catalog
     <> MenusMix.parseMenusFromCSVText Sample.catalog.
Proof.
  split; [vm_compute; reflexivity|]. split; [vm_compute; reflexivity|].
  split; vm_compute; discriminate.
Qed.

(** SHA-256 on the test vector of FIPS 180-4. *)
Example sha256hex_abc :
  MenusSha.sha256hex (lit "abc")
  = lit "ba7816bf8f01cfea414140de5dae2223b00361a396177a9cb410ff61f20015ad".
Proof. vm_compute. reflexivity. Qed.

(** * More properties of the code *)

(** ** [parseCSVLine], field by field *)

Lemma readQuoted_rest_length (rest value : jsstring) :
  (length (snd (Menus.readQuoted rest value)) <= length rest)%nat.
Proof.
  revert value.
  induction rest as [rest IH] using (well_founded_induction
    (Wf_nat.well_founded_ltof _ (@length Z))).
  unfold Wf_nat.ltof in IH. intros value.
  destruct rest as [|c r]; simpl; [lia|].
  destruct (c =? dquote).
  - destruct r as [|c' r']; simpl; [lia|].
    destruct (c' =? dquote); simpl; [|lia].
    specialize (IH r' ltac:(simpl; lia) (value ++ [dquote])). lia.
  - specialize (IH r ltac:(simpl; lia) (value ++ [c])). lia.
Qed.

Lemma skipComma_length (rest : jsstring) :
  (length (Menus.skipComma rest) <= length rest)%nat.
Proof.
  destruct rest as [|c r]; simpl; [lia|].
  destruct (c =? comma); simpl; lia.
Qed.

(** [parseCSVLine] returns at least one field, so that the first column of
    a row is never [undefined], and no more fields than the line has
    characters, plus one. *)
Theorem parseCSVLine_field_count (line : jsstring) :
  (1 <= length (Menus.parseCSVLine line) <= length line + 1)%nat.
Proof.
  unfold Menus.parseCSVLine. funelim (Menus.fieldsFrom line).
  - simpl. lia.
  - pose proof (readQuoted_rest_length r []).
    pose proof (skipComma_length (snd (Menus.readQuoted r []))).
    simpl. lia.
  - rewrite Nat.add_1_r in *. simpl in *.
    pose proof (length_skipn nextComma r). lia.
  - simpl. lia.
Qed.

Lemma readQuoted_escape (v value rest : jsstring) :
  match rest with c :: _ => c <> dquote | [] => True end ->
  Menus.readQuoted (Notions.escape v ++ dquote :: rest) value
    = (value ++ v, rest).
Proof.
  intros Hrest. revert value. induction v as [|c v IH]; intros value.
  - simpl. rewrite app_nil_r. destruct rest as [|c' rest']; [reflexivity|].
    replace (c' =? dquote) with false
      by (symmetry; apply Z.eqb_neq; exact Hrest).
    reflexivity.
  - simpl. destruct (c =? dquote) eqn:E.
    + apply Z.eqb_eq in E. subst c. simpl. rewrite IH, <- app_assoc.
      reflexivity.
    + simpl. rewrite E, IH, <- app_assoc. reflexivity.
Qed.

(** A field between quotes, with each of its quotes doubled, is read back
    as it was, commas and quotes included: before a comma, the rest of the
    line is parsed after it; at the end of the line, one more, empty, field
    follows it. *)
Theorem parseCSVLine_quoted_field (v rest : jsstring) :
  Menus.parseCSVLine (dquote :: Notions.escape v ++ dquote :: comma :: rest)
    = v :: Menus.parseCSVLine rest
  /\ Menus.parseCSVLine (dquote :: Notions.escape v ++ [dquote]) = [v; []].
Proof.
  unfold Menus.parseCSVLine. split; simp fieldsFrom;
    change (dquote =? dquote) with true; simpl.
  - rewrite (readQuoted_escape v [] (comma :: rest))
      by (vm_compute; discriminate).
    reflexivity.
  - rewrite (readQuoted_escape v [] [] I). simpl. simp fieldsFrom.
    reflexivity.
Qed.

Lemma splitOnFrom_cons (sep : Z) (s cur : jsstring) :
  exists first rest, splitOnFrom sep cur s = first :: rest.
Proof.
  revert cur. induction s as [|c r IH]; intros cur; simpl; [eauto|].
  destruct (c =? sep); eauto.
Qed.

Lemma splitOnFrom_join (sep : Z) (s cur : jsstring) :
  join [sep] (splitOnFrom sep cur s) = cur ++ s.
Proof.
  revert cur. induction s as [|c r IH]; intros cur; simpl.
  - rewrite app_nil_r. reflexivity.
  - destruct (c =? sep) eqn:E.
    + apply Z.eqb_eq in E. subst c.
      destruct (splitOnFrom_cons sep r []) as (first & rest & Hsplit).
      specialize (IH []). rewrite Hsplit in *.
      rewrite join_cons, IH. reflexivity.
    + rewrite IH, <- app_assoc. reflexivity.
Qed.

Lemma splitOnFrom_length (sep : Z) (s cur : jsstring) :
  length (splitOnFrom sep cur s) = S (count_occ Z.eq_dec s sep).
Proof.
  revert cur. induction s as [|c r IH]; intros cur; simpl; [reflexivity|].
  destruct (c =? sep) eqn:E.
  - apply Z.eqb_eq in E. subst c.
    destruct (Z.eq_dec sep sep); [|contradiction]. simpl. rewrite IH.
    reflexivity.
  - apply Z.eqb_neq in E.
    destruct (Z.eq_dec c sep); [contradiction|]. apply IH.
Qed.

Lemma splitOnFrom_trailing (sep : Z) (start cur : jsstring) :
  splitOnFrom sep cur (start ++ [sep]) = splitOnFrom sep cur start ++ [[]].
Proof.
  revert cur. induction start as [|c r IH]; intros cur; simpl.
  - rewrite Z.eqb_refl. reflexivity.
  - destruct (c =? sep); [rewrite IH; reflexivity | apply IH].
Qed.

(** On a line without quotes the fields are the pieces between the commas:
    one more field than there are commas, the last one empty when the line
    ends in a comma, and the fields joined with commas are the line. *)
Theorem parseCSVLine_plain (line : jsstring) :
  ~ In dquote line ->
  Menus.parseCSVLine line = splitOn comma line
  /\ length (Menus.parseCSVLine line) = S (count_occ Z.eq_dec line comma)
  /\ join (lit ",") (Menus.parseCSVLine line) = line
  /\ (forall start, line = start ++ [comma] ->
      Menus.parseCSVLine line = Menus.parseCSVLine start ++ [[]]).
Proof.
  intros Hquote. rewrite (parseCSVLine_unquoted _ Hquote).
  split; [reflexivity|]. split; [apply splitOnFrom_length|].
  split; [apply (splitOnFrom_join comma line [])|].
  intros start ->.
  rewrite parseCSVLine_unquoted
    by (intros H; apply Hquote; apply in_or_app; left; exact H).
  apply splitOnFrom_trailing.
Qed.

Lemma parseCSVLine_plain_witness :
  ~ In dquote (lit "a,b,")
  /\ Menus.parseCSVLine (lit "a,b,") = splitOn comma (lit "a,b,")
  /\ length (Menus.parseCSVLine (lit "a,b,")) = 3%nat.
Proof.
  assert (H : ~ In dquote (lit "a,b,")).
  { vm_compute. intros [E|[E|[E|[E|[]]]]]; discriminate E. }
  split; [exact H|].
  destruct (parseCSVLine_plain (lit "a,b,") H) as (E1 & E2 & _).
  split; [exact E1 | exact E2].
Defined.

Lemma splitOnFrom_app_sep (sep : Z) (f cur rest : jsstring) :
  ~ In sep f ->
  splitOnFrom sep cur (f ++ sep :: rest)
    = (cur ++ f) :: splitOnFrom sep [] rest.
Proof.
  revert cur. induction f as [|c r IH]; intros cur Hin; simpl.
  - rewrite Z.eqb_refl, app_nil_r. reflexivity.
  - replace (c =? sep) with false
      by (symmetry; apply Z.eqb_neq; intros ->; apply Hin; left; reflexivity).
    rewrite IH by (intros H; apply Hin; right; exact H).
    rewrite <- app_assoc. reflexivity.
Qed.

Lemma splitOn_join (sep : Z) (fs : list jsstring) :
  fs <> [] -> (forall f, In f fs -> ~ In sep f) ->
  splitOn sep (join [sep] fs) = fs.
Proof.
  unfold splitOn. induction fs as [|f fs IH]; intros Hne Hfs; [congruence|].
  destruct fs as [|g fs].
  - simpl. rewrite splitOnFrom_none by (apply Hfs; left; reflexivity).
    reflexivity.
  - rewrite join_cons. cbn [app].
    rewrite splitOnFrom_app_sep by (apply Hfs; left; reflexivity).
    rewrite IH; [reflexivity | discriminate |].
    intros h Hh. apply Hfs. right. exact Hh.
Qed.

Lemma In_join (c : Z) (sep : jsstring) (fs : list jsstring) :
  In c (join sep fs) -> In c sep \/ exists f, In f fs /\ In c f.
Proof.
  induction fs as [|f fs IH]; [intros []|].
  destruct fs as [|g fs].
  - simpl. intros H. right. exists f. split; [left; reflexivity | exact H].
  - rewrite join_cons. intros H.
    apply in_app_or in H. destruct H as [H|H].
    + right. exists f. split; [left; reflexivity | exact H].
    + apply in_app_or in H. destruct H as [H|H]; [left; exact H|].
      destruct (IH H) as [Hsep|(h & Hh & Hc)]; [left; exact Hsep|].
      right. exists h. split; [right; exact Hh | exact Hc].
Qed.

(** Fields without commas and quotes, one at least, written on a line with
    commas between them, are the fields [parseCSVLine] reads from the
    line. *)
Theorem parseCSVLine_join (fs : list jsstring) :
  fs <> [] ->
  (forall f, In f fs -> ~ In comma f /\ ~ In dquote f) ->
  Menus.parseCSVLine (join (lit ",") fs) = fs.
Proof.
  intros Hne Hfs.
  rewrite parseCSVLine_unquoted.
  - apply (splitOn_join comma fs Hne). intros f Hf. apply (Hfs f Hf).
  - intros H. apply In_join in H. destruct H as [H|(f & Hf & H)].
    + vm_compute in H. destruct H as [H|[]]. discriminate H.
    + exact (proj2 (Hfs f Hf) H).
Qed.

Lemma parseCSVLine_join_witness :
  [lit "カレー"; lit "洋食"; lit "米"] <> []
  /\ Menus.parseCSVLine (join (lit ",") [lit "カレー"; lit "洋食"; lit "米"])
     = [lit "カレー"; lit "洋食"; lit "米"].
Proof.
  assert (Hne : [lit "カレー"; lit "洋食"; lit "米"] <> []) by discriminate.
  split; [exact Hne|].
  apply (parseCSVLine_join _ Hne).
  intros f [<-|[<-|[<-|[]]]]; vm_compute; split; intros H;
    repeat (destruct H as [H|H]; [discriminate H|]); exact H.
Defined.

(** ** The lines of a text *)

Lemma splitFrom_line (f cur : jsstring) :
  ~ In LF f -> ~ In CR f ->
  splitFrom cur f = [cur ++ f]
  /\ (forall rest, splitFrom cur (f ++ LF :: rest)
                   = (cur ++ f) :: splitFrom [] rest)
  /\ (forall rest, splitFrom cur (f ++ CR :: LF :: rest)
                   = (cur ++ f) :: splitFrom [] rest).
Proof.
  revert cur. induction f as [|c r IH]; intros cur HLF HCR.
  - simpl. rewrite app_nil_r. repeat split; reflexivity.
  - assert (E1 : (c =? LF) = false)
      by (apply Z.eqb_neq; intros ->; apply HLF; left; reflexivity).
    assert (E2 : (c =? CR) = false)
      by (apply Z.eqb_neq; intros ->; apply HCR; left; reflexivity).
    destruct (IH (cur ++ [c])) as (H1 & H2 & H3).
    { intros H; apply HLF; right; exact H. }
    { intros H; apply HCR; right; exact H. }
    simpl. rewrite E1, E2. rewrite <- !app_assoc in *. simpl in *.
    repeat split; assumption.
Qed.

Lemma splitLines_join (lines : list jsstring) :
  lines <> [] ->
  (forall l, In l lines -> ~ In LF l /\ ~ In CR l) ->
  splitLines (join [LF] lines) = lines
  /\ splitLines (join [CR; LF] lines) = lines.
Proof.
  unfold splitLines.
  induction lines as [|l lines IH]; intros Hne Hlines; [congruence|].
  destruct (Hlines l (or_introl eq_refl)) as [HLF HCR].
  destruct (splitFrom_line l [] HLF HCR) as (H1 & H2 & H3).
  destruct lines as [|l' lines].
  - simpl. split; exact H1.
  - destruct IH as [IH1 IH2]; [discriminate | |].
    { intros x Hx. apply Hlines. right. exact Hx. }
    rewrite !join_cons. cbn [app].
    rewrite H2, H3, IH1, IH2. split; reflexivity.
Qed.

(** A text loads the same with its lines ended by LF or by CR LF: in both
    cases the loader works on the lines themselves. *)
Theorem parseText_line_ends
    (stableId : jsstring -> jsstring -> jsstring -> jsstring)
    (lines : list jsstring) :
  lines <> [] ->
  (forall l, In l lines -> ~ In LF l /\ ~ In CR l) ->
  Menus.parseText stableId (join [CR; LF] lines)
    = Menus.parseText stableId (join [LF] lines)
  /\ Menus.parseText stableId (join [LF] lines)
     = Menus.parseLines stableId lines.
Proof.
  intros Hne Hlines. unfold Menus.parseText.
  destruct (splitLines_join lines Hne Hlines) as [-> ->].
  split; reflexivity.
Qed.

Lemma parseText_line_ends_witness :
  [lit "name,mainGenre,carb"; lit "カレー,洋食,米"] <> []
  /\ Menus.parseText MenusMix.stableId
       (join [CR; LF] [lit "name,mainGenre,carb"; lit "カレー,洋食,米"])
     = Menus.parseText MenusMix.stableId
       (join [LF] [lit "name,mainGenre,carb"; lit "カレー,洋食,米"]).
Proof.
  assert (Hne : [lit "name,mainGenre,carb"; lit "カレー,洋食,米"] <> [])
    by discriminate.
  split; [exact Hne|].
  apply (parseText_line_ends MenusMix.stableId _ Hne).
  intros l [<-|[<-|[]]]; vm_compute; split; intros H;
    repeat (destruct H as [H|H]; [discriminate H|]); exact H.
Defined.

(** ** What the loader returns *)

Lemma trimStart_idem (s : jsstring) : trimStart (trimStart s) = trimStart s.
Proof.
  induction s as [|c r IH]; simpl; [reflexivity|].
  destruct (isWhiteSpace c) eqn:E; [exact IH|].
  simpl. rewrite E. reflexivity.
Qed.

Lemma trimStart_snoc (s : jsstring) (c : Z) :
  isWhiteSpace c = false -> trimStart (s ++ [c]) = trimStart s ++ [c].
Proof.
  intros Hc. induction s as [|x r IH]; simpl.
  - rewrite Hc. reflexivity.
  - destruct (isWhiteSpace x); [exact IH | reflexivity].
Qed.

Lemma trimEnd_cons (c : Z) (s : jsstring) :
  isWhiteSpace c = false -> trimEnd (c :: s) = c :: trimEnd s.
Proof.
  intros Hc. unfold trimEnd. simpl.
  rewrite (trimStart_snoc _ _ Hc), rev_app_distr. reflexivity.
Qed.

(** [trim] leaves what it returns as it is. *)
Lemma trim_idem (s : jsstring) : trim (trim s) = trim s.
Proof.
  unfold trim. destruct (trimStart s) as [|c t] eqn:E; [reflexivity|].
  pose proof (trimStart_head _ _ _ E) as Hc.
  rewrite (trimEnd_cons _ _ Hc). simpl. rewrite Hc.
  rewrite <- (trimEnd_cons _ _ Hc).
  unfold trimEnd. rewrite rev_involutive, trimStart_idem. reflexivity.
Qed.

Lemma includes_In (arr : list jsstring) (v : jsstring) :
  includes arr v = true <-> In v arr.
Proof.
  unfold includes. rewrite existsb_exists. split.
  - intros (x & Hx & E). apply streq_true_iff in E. subst. exact Hx.
  - intros H. exists v. split; [exact H | apply streq_refl].
Qed.

(** The record of a valid row is as a record has to be. *)
Lemma recordOf_wellFormed
    (stableId : jsstring -> jsstring -> jsstring -> jsstring)
    (line : jsstring) :
  validRow line = true -> Notions.wellFormed stableId (recordOf stableId line).
Proof.
  unfold validRow, hasName, validFields, Notions.wellFormed, recordOf.
  rewrite !andb_true_iff, negb_true_iff, streq_false_iff.
  cbn [Menus.name Menus.mainGenre Menus.carb Menus.id].
  intros (Hname & Hgenre & Hcarb).
  split; [exact Hname|]. split.
  - rewrite column_0. cbn [orEmpty]. apply trim_idem.
  - split; [apply includes_In; exact Hgenre|].
    split; [apply includes_In; exact Hcarb | reflexivity].
Qed.

(** What the loader returns, when it returns: the records of the valid
    rows of some lines of the text, fewer than the text has lines. *)
Lemma parseText_records
    (stableId : jsstring -> jsstring -> jsstring -> jsstring)
    (raw : jsstring) (menus : list Menu) :
  parseText stableId raw = Return menus ->
  exists rows,
    menus = map (recordOf stableId) (filter validRow rows)
    /\ (length rows < length (splitLines raw))%nat.
Proof.
  unfold parseText, parseLines.
  destruct (findIndex _ _) as [headerIdx|] eqn:Hidx; [|discriminate].
  cbv zeta. destruct (_ || _); [discriminate|].
  rewrite rowLoop_spec. cbn [app].
  destruct (0 <? _)%nat; [discriminate|].
  intros E. injection E as <-.
  exists (skipn (headerIdx + 1) (splitLines raw)). split; [reflexivity|].
  destruct (findIndex_Some _ _ Hidx) as (blanks & h & rest & Hl & Hb & _).
  rewrite length_skipn, Hl, length_app. simpl. lia.
Qed.

(** Every record the loader returns has a name that is not empty and
    carries no white space around it, a [mainGenre] and a [carb] of the two
    vocabularies, and the id [stableId] gives for these three; and there are
    fewer records than lines, the header being one of them. *)
Theorem parseText_wellFormed
    (stableId : jsstring -> jsstring -> jsstring -> jsstring)
    (raw : jsstring) (menus : list Menu) :
  parseText stableId raw = Return menus ->
  (forall m, In m menus -> Notions.wellFormed stableId m)
  /\ (length menus < length (splitLines raw))%nat.
Proof.
  intros Hparse.
  destruct (parseText_records stableId raw menus Hparse)
    as (rows & -> & Hlen).
  split.
  - intros m Hm. apply in_map_iff in Hm. destruct Hm as (line & <- & Hline).
    apply filter_In in Hline. apply recordOf_wellFormed. apply Hline.
  - rewrite length_map. pose proof (filter_length_le validRow rows). lia.
Qed.

Lemma parseText_wellFormed_witness :
  parseText MenusMix.stableId Sample.catalog = Return Sample.menus
  /\ forall m, In m Sample.menus -> Notions.wellFormed MenusMix.stableId m.
Proof.
  assert (H : parseText MenusMix.stableId Sample.catalog = Return Sample.menus)
    by reflexivity.
  split; [exact H|].
  exact (proj1 (parseText_wellFormed MenusMix.stableId Sample.catalog
                  Sample.menus H)).
Defined.

(** ** The ids *)

Lemma In_firstn_list (A : Type) (k : nat) (l : list A) (x : A) :
  In x (firstn k l) -> In x l.
Proof.
  intros H. rewrite <- (firstn_skipn k l). apply in_or_app. left. exact H.
Qed.

Lemma digitChar_base36 (d : Z) :
  0 <= d < 36 -> Notions.isBase36 (MenusMix.digitChar d) = true.
Proof.
  intros Hd. unfold Notions.isBase36, MenusMix.digitChar.
  destruct (d <? 10) eqn:E; [apply Z.ltb_lt in E | apply Z.ltb_ge in E].
  - apply orb_true_iff. left. apply andb_true_iff.
    split; apply Z.leb_le; lia.
  - apply orb_true_iff. right. apply andb_true_iff.
    split; apply Z.leb_le; lia.
Qed.

Lemma radixDigits_base36 (fuel : nat) (n : Z) (acc : jsstring) :
  forallb Notions.isBase36 acc = true ->
  forallb Notions.isBase36 (MenusMix.radixDigits fuel 36 n acc) = true.
Proof.
  revert n acc. induction fuel as [|fuel IH]; intros n acc Hacc; simpl;
    [exact Hacc|].
  assert (Hacc' : forallb Notions.isBase36
                    (MenusMix.digitChar (n mod 36) :: acc) = true).
  { simpl. rewrite Hacc, digitChar_base36; [reflexivity|].
    apply Z.mod_pos_bound. lia. }
  destruct (n <? 36); [exact Hacc' | apply IH; exact Hacc'].
Qed.

Lemma MenusMix_stableId_base36 (name mainGenre carb : jsstring) :
  forallb Notions.isBase36 (MenusMix.stableId name mainGenre carb) = true.
Proof.
  unfold MenusMix.stableId, MenusMix.padStart0, MenusMix.toStringRadix.
  cbv zeta. rewrite forallb_app. apply andb_true_iff. split.
  - apply forallb_forall. intros c Hc. apply repeat_spec in Hc. subst c.
    reflexivity.
  - apply radixDigits_base36. reflexivity.
Qed.

Lemma hexChar_hex (x : Z) :
  Notions.isHex (MenusSha.hexChar (x mod 16)) = true.
Proof.
  pose proof (Z.mod_pos_bound x 16 ltac:(lia)) as Hd.
  unfold Notions.isHex, MenusSha.hexChar.
  destruct (x mod 16 <? 10) eqn:E;
    [apply Z.ltb_lt in E | apply Z.ltb_ge in E].
  - apply orb_true_iff. left. apply andb_true_iff.
    split; apply Z.leb_le; lia.
  - apply orb_true_iff. right. apply andb_true_iff.
    split; apply Z.leb_le; lia.
Qed.

Lemma hex8_hex (w : Z) : forallb Notions.isHex (MenusSha.hex8 w) = true.
Proof.
  unfold MenusSha.hex8. cbn [map forallb]. rewrite !hexChar_hex. reflexivity.
Qed.

Lemma MenusSha_stableId_hex (name mainGenre carb : jsstring) :
  forallb Notions.isHex (MenusSha.stableId name mainGenre carb) = true.
Proof.
  unfold MenusSha.stableId, MenusSha.sha256hex. cbv zeta.
  destruct (MenusSha.blocks _ _ _) as [[[[[[[a b] c] d] e] f] g] h].
  apply forallb_forall. intros x Hx. apply In_firstn_list in Hx.
  revert x Hx. apply forallb_forall.
  rewrite !forallb_app, !hex8_hex. reflexivity.
Qed.

(** The ids of the records the static-export loader returns are 11
    characters of [0-9a-z]; those of the server-side loader are 12
    characters of [0-9a-f]. *)
Theorem loaded_ids (raw : jsstring) (menus : list Menu) (m : Menu) :
  In m menus ->
  (MenusMix.parseMenusFromCSVText raw = Return menus ->
   length (id m) = 11%nat /\ forallb Notions.isBase36 (id m) = true)
  /\ (MenusSha.loadMenusFromPublicCSV raw = Return menus ->
      length (id m) = 12%nat /\ forallb Notions.isHex (id m) = true).
Proof.
  intros Hm. split; intros Hparse;
    destruct (parseText_records _ raw menus Hparse) as (rows & -> & _);
    apply in_map_iff in Hm; destruct Hm as (line & <- & _);
    unfold recordOf; cbn [id].
  - split; [apply MenusMix_stableId_length | apply MenusMix_stableId_base36].
  - split; [apply MenusSha_stableId_length | apply MenusSha_stableId_hex].
Qed.

Lemma loaded_ids_witness :
  In Sample.curry Sample.menus
  /\ MenusMix.parseMenusFromCSVText Sample.catalog = Return Sample.menus
  /\ length (id Sample.curry) = 11%nat.
Proof.
  assert (Hin : In Sample.curry Sample.menus) by (left; reflexivity).
  assert (Hparse : MenusMix.parseMenusFromCSVText Sample.catalog
                   = Return Sample.menus) by reflexivity.
  split; [exact Hin|]. split; [exact Hparse|].
  exact (proj1 (proj1 (loaded_ids Sample.catalog Sample.menus Sample.curry
                         Hin) Hparse)).
Defined.

(** The number the mixing [stableId] writes in base 36 is made of 21 bits
    of [h2] above the 32 bits of [h1]: it is not negative and not above
    2^53 - 1, so the sum and the product that make it are exact on
    JavaScript's numbers. *)
Theorem combinedOf_safe_integer (str : jsstring) :
  exists hi lo,
    0 <= hi < 2 ^ 21 /\ 0 <= lo < 2 ^ 32
    /\ MenusMix.combinedOf str = 2 ^ 32 * hi + lo
    /\ 0 <= MenusMix.combinedOf str <= 9007199254740991.
Proof.
  unfold MenusMix.combinedOf.
  destruct (MenusMix.mixLoop str _) as [h1 h2]. cbv zeta.
  match goal with
  | |- context [4294967296 * MenusMix.and32 2097151 ?x + MenusMix.ushr32 ?y 0] =>
    exists (MenusMix.and32 2097151 x), (MenusMix.ushr32 y 0);
    pose proof (combined_range y x) as Hrange;
    assert (Hhi : 0 <= MenusMix.and32 2097151 x < 2 ^ 21);
    [|assert (Hlo : 0 <= MenusMix.ushr32 y 0 < 2 ^ 32)]
  end.
  - unfold MenusMix.and32.
    change (MenusMix.toInt32 2097151) with (Z.ones 21).
    rewrite Z.land_comm, Z.land_ones by lia.
    apply Z.mod_pos_bound. lia.
  - unfold MenusMix.ushr32, MenusMix.toUint32. rewrite Z.shiftr_0_r.
    apply Z.mod_pos_bound. lia.
  - change (2 ^ 53) with 9007199254740992 in Hrange.
    change (2 ^ 32) with 4294967296.
    repeat split; try lia; try apply Hhi; try apply Hlo.
Qed.






(** ** The candidates of a filter *)

Lemma filter_idem (A : Type) (p : A -> bool) (l : list A) :
  List.filter p (List.filter p l) = List.filter p l.
Proof.
  induction l as [|x l IH]; simpl; [reflexivity|].
  destruct (p x) eqn:E; simpl; [rewrite E, IH; reflexivity | exact IH].
Qed.

(** What [getCandidates] returns is a filter of the list. *)
Lemma getCandidates_filter (menus : list Menu) (f : Filter)
    (candidates : list Menu) :
  getCandidates menus f = Return candidates ->
  exists keep,
    candidates = List.filter keep menus
    /\ forall others, getCandidates others f = Return (List.filter keep others).
Proof.
  unfold getCandidates.
  destruct (streq (mode f) (lit "random")).
  { intros E. injection E as <-. eexists. split; reflexivity. }
  destruct (streq (mode f) (lit "carb")).
  { destruct (Decision.carb f) as [[|c t]|]; intros E; injection E as <-.
    - exists (fun _ => false). split; [|intros others].
      + induction menus; simpl; auto.
      + induction others; simpl; auto.
    - eexists. split; reflexivity.
    - exists (fun _ => false). split; [|intros others].
      + induction menus; simpl; auto.
      + induction others; simpl; auto. }
  destruct (streq (mode f) (lit "genre")).
  { destruct (Decision.mainGenre f) as [[|c t]|]; intros E; injection E as <-.
    - exists (fun _ => false). split; [|intros others].
      + induction menus; simpl; auto.
      + induction others; simpl; auto.
    - eexists. split; reflexivity.
    - exists (fun _ => false). split; [|intros others].
      + induction menus; simpl; auto.
      + induction others; simpl; auto. }
  destruct (streq (mode f) (lit "dessert")); [|discriminate].
  intros E. injection E as <-. eexists. split; reflexivity.
Qed.

(** The candidates are records of the list, no more of them than the list
    has; the candidates of the candidates, for the same filter, are the
    candidates; and the candidates of two lists one after the other are
    those of the first followed by those of the second. *)
Theorem getCandidates_stable (menus : list Menu) (f : Filter)
    (candidates : list Menu) :
  getCandidates menus f = Return candidates ->
  incl candidates menus
  /\ (length candidates <= length menus)%nat
  /\ getCandidates candidates f = Return candidates
  /\ forall more,
       exists candidates',
         getCandidates more f = Return candidates'
         /\ getCandidates (menus ++ more) f
            = Return (candidates ++ candidates').
Proof.
  intros Hret.
  destruct (getCandidates_filter menus f candidates Hret) as (keep & -> & Hall).
  split; [apply incl_filter|]. split; [apply filter_length_le|].
  split; [rewrite Hall, filter_idem; reflexivity|].
  intros more. exists (List.filter keep more).
  rewrite !Hall, filter_app. split; reflexivity.
Qed.

Lemma getCandidates_stable_witness :
  getCandidates Sample.menus Sample.riceFilter = Return [Sample.curry]
  /\ getCandidates [Sample.curry] Sample.riceFilter = Return [Sample.curry].
Proof.
  assert (H : getCandidates Sample.menus Sample.riceFilter
              = Return [Sample.curry]) by reflexivity.
  split; [exact H|].
  exact (proj1 (proj2 (proj2 (getCandidates_stable Sample.menus
    Sample.riceFilter [Sample.curry] H)))).
Defined.

Lemma getCandidates_shape (menus : list Menu) (f : Filter) (s : Shape) :
  hasShape f s ->
  exists keep,
    (forall m, keep m = true <-> satisfies s m)
    /\ getCandidates menus f = Return (List.filter keep menus).
Proof.
  destruct s as [|target|genre|]; simpl; unfold getCandidates.
  - intros ->. simpl. eexists. split; [|reflexivity].
    intros m. simpl. rewrite negb_true_iff, streq_false_iff. tauto.
  - intros (-> & -> & Hin). simpl.
    destruct (In_carbTargets_cons _ Hin) as (c & r & ->).
    eexists. split; [|reflexivity]. intros m. simpl.
    rewrite andb_true_iff, orb_true_iff, negb_true_iff, streq_false_iff,
      !streq_true_iff. tauto.
  - intros (-> & -> & Hin). simpl.
    destruct (In_MAIN_GENRES_cons _ Hin) as (c & r & ->).
    eexists. split; [|reflexivity]. intros m. apply streq_true_iff.
  - intros ->. simpl. eexists. split; [|reflexivity].
    intros m. apply streq_true_iff.
Qed.

Lemma filter_negb_Permutation (A : Type) (p : A -> bool) (l : list A) :
  Permutation l (List.filter p l ++ List.filter (fun x => negb (p x)) l).
Proof.
  induction l as [|x l IH]; simpl; [constructor|].
  destruct (p x); simpl.
  - constructor. exact IH.
  - apply Permutation_cons_app. exact IH.
Qed.

(** The random filter and the dessert filter share the records out: every
    record of the list is a candidate of one of the two and not of the
    other, and the two lists of candidates together are the list in another
    order. *)
Theorem random_dessert_partition (menus : list Menu) (fr fd : Filter) :
  hasShape fr RandomFilter -> hasShape fd DessertFilter ->
  exists rs ds,
    getCandidates menus fr = Return rs
    /\ getCandidates menus fd = Return ds
    /\ Permutation menus (ds ++ rs)
    /\ (length rs + length ds = length menus)%nat
    /\ forall m, In m rs -> In m ds -> False.
Proof.
  simpl. intros Hr Hd. unfold getCandidates. rewrite Hr, Hd. simpl.
  set (isDessert := fun m : Menu => streq (Menus.mainGenre m) dessert).
  exists (List.filter (fun m => negb (isDessert m)) menus),
         (List.filter isDessert menus).
  split; [reflexivity|]. split; [reflexivity|].
  pose proof (filter_negb_Permutation _ isDessert menus) as Hperm.
  split; [exact Hperm|]. split.
  - apply Permutation_length in Hperm. rewrite length_app in Hperm. lia.
  - intros m Hm1 Hm2. apply filter_In in Hm1. apply filter_In in Hm2.
    destruct Hm1 as [_ H1]. destruct Hm2 as [_ H2].
    rewrite H2 in H1. discriminate H1.
Qed.

Lemma random_dessert_partition_witness :
  hasShape (mkFilter None None (lit "random")) RandomFilter
  /\ hasShape (mkFilter None None (lit "dessert")) DessertFilter
  /\ exists rs ds,
       getCandidates Sample.menus (mkFilter None None (lit "random"))
         = Return rs
       /\ getCandidates Sample.menus (mkFilter None None (lit "dessert"))
          = Return ds
       /\ Permutation Sample.menus (ds ++ rs)
       /\ (length rs + length ds = length Sample.menus)%nat
       /\ forall m, In m rs -> In m ds -> False.
Proof.
  split; [reflexivity|]. split; [reflexivity|].
  exact (random_dessert_partition Sample.menus
           (mkFilter None None (lit "random"))
           (mkFilter None None (lit "dessert")) eq_refl eq_refl).
Defined.

(** The two carb filters against the random filter: their candidates are
    candidates of the random filter; a candidate of the random filter whose
    [carb] is of the vocabulary is a candidate of one of the two at least,
    and of both when its [carb] is the third value. *)
Theorem carb_filters_cover (menus : list Menu) (frice fnoodle fr : Filter) :
  hasShape frice (CarbFilter (lit "米")) ->
  hasShape fnoodle (CarbFilter (lit "麺")) ->
  hasShape fr RandomFilter ->
  exists rice noodle rs,
    getCandidates menus frice = Return rice
    /\ getCandidates menus fnoodle = Return noodle
    /\ getCandidates menus fr = Return rs
    /\ incl rice rs /\ incl noodle rs
    /\ (forall m, In m rs -> In (Menus.carb m) CARBS ->
        In m rice \/ In m noodle)
    /\ (forall m, In m rs -> Menus.carb m = eitherCarb ->
        In m rice /\ In m noodle).
Proof.
  intros Hrice Hnoodle Hr.
  destruct (getCandidates_shape menus _ _ Hrice) as (krice & Hkrice & ->).
  destruct (getCandidates_shape menus _ _ Hnoodle) as (knoodle & Hknoodle & ->).
  destruct (getCandidates_shape menus _ _ Hr) as (kr & Hkr & ->).
  simpl in Hkrice, Hknoodle, Hkr.
  exists (List.filter krice menus), (List.filter knoodle menus),
         (List.filter kr menus).
  repeat split; try reflexivity.
  - intros m Hm. apply filter_In in Hm. apply filter_In.
    split; [apply Hm|]. apply Hkr. apply Hkrice. apply Hm.
  - intros m Hm. apply filter_In in Hm. apply filter_In.
    split; [apply Hm|]. apply Hkr. apply Hknoodle. apply Hm.
  - intros m Hm Hcarb. apply filter_In in Hm. destruct Hm as [Hin Hm].
    apply Hkr in Hm. rewrite !filter_In, Hkrice, Hknoodle.
    unfold CARBS in Hcarb. simpl in Hcarb.
    destruct Hcarb as [E|[E|[E|[]]]]; symmetry in E.
    + left. tauto.
    + right. tauto.
    + left. unfold eitherCarb. tauto.
  - apply filter_In. apply filter_In in H. destruct H as [Hin Hm].
    split; [exact Hin|]. apply Hkrice. apply Hkr in Hm. tauto.
  - apply filter_In. apply filter_In in H. destruct H as [Hin Hm].
    split; [exact Hin|]. apply Hknoodle. apply Hkr in Hm. tauto.
Qed.

Lemma carb_filters_cover_witness :
  hasShape (mkFilter None (Some (lit "米")) (lit "carb")) (CarbFilter (lit "米"))
  /\ hasShape (mkFilter None (Some (lit "麺")) (lit "carb"))
              (CarbFilter (lit "麺"))
  /\ hasShape (mkFilter None None (lit "random")) RandomFilter
  /\ exists rice noodle rs,
       getCandidates Sample.menus (mkFilter None (Some (lit "米")) (lit "carb"))
         = Return rice
       /\ getCandidates Sample.menus
            (mkFilter None (Some (lit "麺")) (lit "carb")) = Return noodle
       /\ getCandidates Sample.menus (mkFilter None None (lit "random"))
          = Return rs
       /\ incl rice rs /\ incl noodle rs.
Proof.
  assert (H1 : hasShape (mkFilter None (Some (lit "米")) (lit "carb"))
                        (CarbFilter (lit "米"))).
  { simpl. repeat split. left. reflexivity. }
  assert (H2 : hasShape (mkFilter None (Some (lit "麺")) (lit "carb"))
                        (CarbFilter (lit "麺"))).
  { simpl. repeat split. right. left. reflexivity. }
  assert (H3 : hasShape (mkFilter None None (lit "random")) RandomFilter)
    by reflexivity.
  split; [exact H1|]. split; [exact H2|]. split; [exact H3|].
  destruct (carb_filters_cover Sample.menus _ _ _ H1 H2 H3)
    as (rice & noodle & rs & E1 & E2 & E3 & I1 & I2 & _).
  exists rice, noodle, rs. repeat split; assumption.
Defined.

(** A genre filter that asks for the dessert genre has the candidates of
    the dessert filter, though no button asks for it. *)
Theorem genre_dessert_is_dessert (menus : list Menu) (fg fd : Filter) :
  hasShape fg (GenreFilter dessert) -> hasShape fd DessertFilter ->
  getCandidates menus fg = getCandidates menus fd.
Proof.
  simpl. intros (Hmode & Hgenre & _) Hd.
  unfold getCandidates. rewrite Hmode, Hgenre, Hd. reflexivity.
Qed.

Lemma genre_dessert_is_dessert_witness :
  hasShape (mkFilter (Some dessert) None (lit "genre")) (GenreFilter dessert)
  /\ hasShape (mkFilter None None (lit "dessert")) DessertFilter
  /\ getCandidates Sample.menus (mkFilter (Some dessert) None (lit "genre"))
     = getCandidates Sample.menus (mkFilter None None (lit "dessert")).
Proof.
  assert (H1 : hasShape (mkFilter (Some dessert) None (lit "genre"))
                        (GenreFilter dessert)).
  { simpl. repeat split. do 4 right. left. reflexivity. }
  assert (H2 : hasShape (mkFilter None None (lit "dessert")) DessertFilter)
    by reflexivity.
  split; [exact H1|]. split; [exact H2|].
  exact (genre_dessert_is_dessert Sample.menus _ _ H1 H2).
Defined.

(** ** The pick *)

Lemma roundToDouble_exact (N e : Z) :
  0 <= N < 2 ^ 53 -> roundToDouble N e = mkNumber N e.
Proof.
  intros HN. unfold roundToDouble.
  replace (Z.log2 N - 52 <=? 0) with true; [reflexivity|].
  symmetry. apply Z.leb_le.
  destruct (Z.eq_dec N 0) as [->|Hpos]; [simpl; lia|].
  assert (Z.log2 N < 53) by (apply Z.log2_lt_pow2; lia). lia.
Qed.

Lemma pickOne_exact (random : number) (candidates : list Menu) (k : nat) :
  isRandom random -> (k < length candidates)%nat ->
  mantissa random * Z.of_nat (length candidates) < 2 ^ 53 ->
  Z.of_nat k * 2 ^ (- exponent random)
    <= mantissa random * Z.of_nat (length candidates) ->
  mantissa random * Z.of_nat (length candidates)
    < (Z.of_nat k + 1) * 2 ^ (- exponent random) ->
  pickOne random candidates = nth_error candidates k.
Proof.
  intros (Hm & He & HmD) Hk Hexact Hle Hlt. unfold pickOne.
  replace (length candidates =? 0)%nat with false
    by (symmetry; apply Nat.eqb_neq; lia).
  unfold timesLength. rewrite roundToDouble_exact by nia.
  unfold floor. cbn [mantissa exponent].
  replace (0 <=? exponent random) with false
    by (symmetry; apply Z.leb_gt; lia).
  assert (HD : 0 < 2 ^ (- exponent random))
    by (apply Z.pow_pos_nonneg; lia).
  replace (mantissa random * Z.of_nat (length candidates)
           / 2 ^ (- exponent random)) with (Z.of_nat k).
  - rewrite Nat2Z.id. reflexivity.
  - apply Z.div_unique with
      (r := mantissa random * Z.of_nat (length candidates)
            - Z.of_nat k * 2 ^ (- exponent random)); lia.
Qed.

(** With [n] candidates and a draw [r] whose product with [n] needs no
    rounding, having 53 bits at most: if [k <= r * n < k + 1], the candidate
    of index [k] is picked. And among fewer than [2 ^ 26] candidates each
    one is picked by some draw. *)
Theorem pickOne_interval (candidates : list Menu) (k : nat) :
  (k < length candidates)%nat ->
  (forall random,
     isRandom random ->
     mantissa random * Z.of_nat (length candidates) < 2 ^ 53 ->
     Z.of_nat k * 2 ^ (- exponent random)
       <= mantissa random * Z.of_nat (length candidates) ->
     mantissa random * Z.of_nat (length candidates)
       < (Z.of_nat k + 1) * 2 ^ (- exponent random) ->
     pickOne random candidates = nth_error candidates k)
  /\ (Z.of_nat (length candidates) < 2 ^ 26 ->
      exists random,
        isRandom random
        /\ pickOne random candidates = nth_error candidates k)
  /\ exists m, nth_error candidates k = Some m.
Proof.
  intros Hk. split; [|split].
  - intros random Hrandom. apply pickOne_exact; assumption.
  - intros Hsmall.
    set (n := Z.of_nat (length candidates)) in *.
    assert (Hn : 0 < n) by (unfold n; lia).
    set (c := (Z.of_nat k * 2 ^ 26 + n - 1) / n).
    pose proof (Z.mul_div_le (Z.of_nat k * 2 ^ 26 + n - 1) n Hn) as Hlow.
    pose proof (Z.mod_pos_bound (Z.of_nat k * 2 ^ 26 + n - 1) n Hn) as Hmod.
    pose proof (Z.div_mod (Z.of_nat k * 2 ^ 26 + n - 1) n ltac:(lia)) as Hdiv.
    fold c in Hlow, Hdiv.
    change (2 ^ 26) with 67108864 in *.
    assert (Hkn : Z.of_nat k + 1 <= n) by (unfold n; lia).
    assert (Hc0 : 0 <= c) by (apply Z.div_pos; lia).
    assert (Hc : c < 67108864) by nia.
    assert (Hrandom : isRandom (mkNumber c (-26))).
    { unfold isRandom. cbn [mantissa exponent].
      change (2 ^ (- -26)) with 67108864.
      change (2 ^ 53) with 9007199254740992. lia. }
    exists (mkNumber c (-26)). split; [exact Hrandom|].
    apply pickOne_exact; try assumption; cbn [mantissa exponent];
      fold n; change (2 ^ (- -26)) with 67108864;
      change (2 ^ 53) with 9007199254740992; nia.
  - destruct (nth_error candidates k) as [m|] eqn:E; [eauto|].
    apply nth_error_None in E. lia.
Qed.

Lemma pickOne_interval_witness :
  (1 < length Sample.menus)%nat
  /\ pickOne Sample.half Sample.menus = nth_error Sample.menus 1.
Proof.
  assert (Hk : (1 < length Sample.menus)%nat) by (simpl; lia).
  split; [exact Hk|].
  apply (proj1 (pickOne_interval Sample.menus 1 Hk) Sample.half).
  - unfold isRandom, Sample.half. simpl. lia.
  - vm_compute. reflexivity.
  - vm_compute. discriminate.
  - vm_compute. reflexivity.
Defined.



(** ** The buttons *)

Lemma optEq_true_iff (a b : option jsstring) :
  Controls.optEq a b = true <-> a = b.
Proof.
  destruct a as [x|], b as [y|]; simpl;
    try (split; [discriminate | discriminate]).
  - rewrite streq_true_iff. split; [intros ->; reflexivity|].
    intros E. injection E as ->. reflexivity.
  - split; reflexivity.
Qed.

Lemma isActiveFilter_true_iff (a b : Filter) :
  Controls.isActiveFilter (Some a) b = true
  <-> mode a = mode b
      /\ (mode a = lit "genre" -> Decision.mainGenre a = Decision.mainGenre b)
      /\ (mode a = lit "carb" -> Decision.carb a = Decision.carb b).
Proof.
  unfold Controls.isActiveFilter.
  destruct (streq (mode a) (mode b)) eqn:Em; simpl.
  - apply streq_true_iff in Em. rewrite <- Em.
    destruct (streq (mode a) (lit "genre")) eqn:Eg; simpl.
    + apply streq_true_iff in Eg. rewrite optEq_true_iff, Eg.
      split; [intros H; repeat split; auto; discriminate | intros H; apply H].
      reflexivity.
    + apply streq_false_iff in Eg.
      destruct (streq (mode a) (lit "carb")) eqn:Ec; simpl.
      * apply streq_true_iff in Ec. rewrite optEq_true_iff.
        split; [intros H; repeat split; auto; contradiction|].
        intros H. apply H. exact Ec.
      * apply streq_false_iff in Ec.
        split; [intros _; repeat split; intros; contradiction | reflexivity].
  - apply streq_false_iff in Em.
    split; [discriminate | intros [H _]; contradiction].
Qed.

(** [isActiveFilter] tells the filters apart as far as [getCandidates]
    does: it holds of a filter and itself, it holds both ways or neither,
    it goes through a third filter, and two filters of which it holds have
    the same candidates in every list. Of no filter, [null], it does not
    hold. *)
Theorem isActiveFilter_same_candidates (a b c : Filter) :
  Controls.isActiveFilter None b = false
  /\ Controls.isActiveFilter (Some a) a = true
  /\ Controls.isActiveFilter (Some a) b = Controls.isActiveFilter (Some b) a
  /\ (Controls.isActiveFilter (Some a) b = true ->
      Controls.isActiveFilter (Some b) c = true ->
      Controls.isActiveFilter (Some a) c = true)
  /\ (Controls.isActiveFilter (Some a) b = true ->
      forall menus, getCandidates menus a = getCandidates menus b).
Proof.
  split; [reflexivity|]. split; [apply isActiveFilter_true_iff; auto|].
  split; [|split].
  - destruct (Controls.isActiveFilter (Some a) b) eqn:Eab;
      destruct (Controls.isActiveFilter (Some b) a) eqn:Eba; try reflexivity.
    + apply isActiveFilter_true_iff in Eab. destruct Eab as (Hm & Hg & Hc).
      rewrite <- Eba. symmetry. apply isActiveFilter_true_iff.
      rewrite <- Hm. repeat split; auto; intros H; symmetry; auto.
    + apply isActiveFilter_true_iff in Eba. destruct Eba as (Hm & Hg & Hc).
      rewrite <- Eab. apply isActiveFilter_true_iff.
      rewrite <- Hm. repeat split; auto; intros H; symmetry; auto.
  - rewrite !isActiveFilter_true_iff.
    intros (Hm & Hg & Hc) (Hm' & Hg' & Hc'). rewrite <- Hm in *.
    repeat split; [congruence | |]; intros H.
    + rewrite (Hg H). auto.
    + rewrite (Hc H). auto.
  - rewrite isActiveFilter_true_iff. intros (Hm & Hg & Hc) menus.
    unfold getCandidates. rewrite <- Hm.
    destruct (streq (mode a) (lit "random")); [reflexivity|].
    destruct (streq (mode a) (lit "carb")) eqn:Ec.
    { apply streq_true_iff in Ec. rewrite (Hc Ec). reflexivity. }
    destruct (streq (mode a) (lit "genre")) eqn:Eg.
    { apply streq_true_iff in Eg. rewrite (Hg Eg). reflexivity. }
    reflexivity.
Qed.

Lemma isActiveFilter_same_candidates_witness :
  Controls.isActiveFilter (Some Sample.riceFilter)
    (mkFilter (Some (lit "和食")) (Some (lit "米")) (lit "carb")) = true
  /\ forall menus,
       getCandidates menus Sample.riceFilter
       = getCandidates menus
           (mkFilter (Some (lit "和食")) (Some (lit "米")) (lit "carb")).
Proof.
  assert (H : Controls.isActiveFilter (Some Sample.riceFilter)
    (mkFilter (Some (lit "和食")) (Some (lit "米")) (lit "carb")) = true)
    by reflexivity.
  split; [exact H|].
  exact (proj2 (proj2 (proj2 (proj2 (isActiveFilter_same_candidates
    Sample.riceFilter
    (mkFilter (Some (lit "和食")) (Some (lit "米")) (lit "carb"))
    Sample.riceFilter)))) H).
Defined.

(** Of the eight buttons, the one whose filter is the active filter is
    rendered active and no other. *)
Theorem one_button_active (def def' : Controls.ButtonDef) :
  In def Controls.buttons -> In def' Controls.buttons ->
  (snd (Controls.renderBtn (Some (Controls.filter def)) def') = true
   <-> def = def').
Proof.
  unfold Controls.renderBtn, Controls.buttons. cbn [snd].
  intros H H'. vm_compute in H, H'.
  repeat (destruct H as [H|H]; [|]); try contradiction; subst def;
    repeat (destruct H' as [H'|H']; [|]); try contradiction; subst def';
    vm_compute; split; intros E; try reflexivity; discriminate E.
Qed.

Lemma one_button_active_witness :
  In Controls.DESSERT_BUTTON Controls.buttons
  /\ In Controls.RANDOM_BUTTON Controls.buttons
  /\ snd (Controls.renderBtn (Some (Controls.filter Controls.DESSERT_BUTTON))
            Controls.RANDOM_BUTTON) <> true.
Proof.
  assert (H1 : In Controls.DESSERT_BUTTON Controls.buttons)
    by (do 4 right; left; reflexivity).
  assert (H2 : In Controls.RANDOM_BUTTON Controls.buttons)
    by (do 7 right; left; reflexivity).
  split; [exact H1|]. split; [exact H2|].
  intros E.
  apply (one_button_active _ _ H1 H2) in E. discriminate E.
Defined.

Lemma button_shape (def : Controls.ButtonDef) :
  In def Controls.buttons ->
  recognized (Controls.filter def) /\ In (mode (Controls.filter def)) modes.
Proof.
  unfold Controls.buttons, recognized. intros H. simpl in H.
  destruct H as [<-|[<-|[<-|[<-|[<-|[<-|[<-|[<-|[]]]]]]]]]; simpl.
  - split; [exists (GenreFilter (lit "和食")); simpl | ]; auto 10.
  - split; [exists (GenreFilter (lit "洋食")); simpl | ]; auto 10.
  - split; [exists (GenreFilter (lit "中華")); simpl | ]; auto 10.
  - split; [exists (GenreFilter (lit "その他")); simpl | ]; auto 10.
  - split; [exists DessertFilter; simpl | ]; auto 10.
  - split; [exists (CarbFilter (lit "米")); simpl | ]; auto 10.
  - split; [exists (CarbFilter (lit "麺")); simpl | ]; auto 10.
  - split; [exists RandomFilter; simpl | ]; auto 10.
Qed.

(** ** The component *)

Lemma handleSelect_button (random : number) (menus : list Menu)
    (def : Controls.ButtonDef) (state : DinnerApp.State) :
  In def Controls.buttons -> Notions.isDraw random ->
  exists candidates,
    getCandidates menus (Controls.filter def) = Return candidates
    /\ DinnerApp.handleSelect random menus (Controls.filter def) state
       = Return (DinnerApp.mkState (Some (Controls.filter def))
                   (pickOne random candidates) (length candidates) true)
    /\ Notions.Consistent menus
         (DinnerApp.mkState (Some (Controls.filter def))
            (pickOne random candidates) (length candidates) true).
Proof.
  intros Hdef Hdraw.
  destruct (button_shape def Hdef) as [_ Hmode].
  destruct (getCandidates_returns menus _ Hmode) as [candidates Hret].
  exists candidates. split; [exact Hret|].
  unfold DinnerApp.handleSelect, decideNext. rewrite Hret.
  split; [reflexivity|].
  unfold Notions.Consistent. simpl.
  split; [reflexivity|].
  split; [exists def; split; [exact Hdef | reflexivity]|].
  exists candidates. split; [exact Hret|]. split; [reflexivity|].
  pose proof (pickOne_In random candidates Hdraw) as Hpick.
  split; [split|].
  - intros E. rewrite E in Hpick. exact Hpick.
  - intros ->. reflexivity.
  - intros m E. rewrite E in Hpick. exact Hpick.
Qed.

Lemma handleReroll_consistent (random : number) (menus : list Menu)
    (state : DinnerApp.State) :
  Notions.Consistent menus state -> Notions.isDraw random ->
  exists state',
    DinnerApp.handleReroll random menus state = Return state'
    /\ Notions.Consistent menus state'
    /\ DinnerApp.filter state' = DinnerApp.filter state
    /\ DinnerApp.candidatesCount state' = DinnerApp.candidatesCount state
    /\ DinnerApp.hasDecided state' = DinnerApp.hasDecided state
    /\ (DinnerApp.candidatesCount state = 1%nat ->
        DinnerApp.result state' = DinnerApp.result state).
Proof.
  intros Hcons Hdraw. unfold Notions.Consistent in Hcons.
  unfold DinnerApp.handleReroll.
  destruct (DinnerApp.filter state) as [f|] eqn:Ef.
  - destruct Hcons as (Hdec & Hbutton & cs & Hret & Hcount & Hnone & Hsome).
    unfold decideNext. rewrite Hret. eexists. split; [reflexivity|].
    pose proof (pickOne_In random cs Hdraw) as Hpick.
    unfold Notions.Consistent.
    cbn [DinnerApp.filter DinnerApp.result DinnerApp.candidatesCount
         DinnerApp.hasDecided Decision.result Decision.candidatesCount].
    split; [|split; [reflexivity|]; split; [symmetry; exact Hcount|];
             split; [reflexivity|]].
    + split; [exact Hdec|]. split; [exact Hbutton|].
      exists cs. split; [exact Hret|]. split; [reflexivity|].
      split; [split|].
      * intros E. rewrite E in Hpick. exact Hpick.
      * intros ->. reflexivity.
      * intros m E. rewrite E in Hpick. exact Hpick.
    + intros Hone. rewrite Hcount in Hone.
      destruct cs as [|m [|m' cs]]; try discriminate Hone.
      destruct (pickOne random [m]) as [x|] eqn:Ex; [|discriminate Hpick].
      destruct Hpick as [<-|[]].
      destruct (DinnerApp.result state) as [y|] eqn:Ey.
      * destruct (Hsome y eq_refl) as [<-|[]]. reflexivity.
      * destruct Hnone as [Hnone _]. discriminate (Hnone eq_refl).
  - exists state. split; [reflexivity|]. unfold Notions.Consistent.
    rewrite Ef. repeat split; auto; apply Hcons.
Qed.

Lemma Reachable_Consistent (menus : list Menu) (state : DinnerApp.State) :
  Notions.Reachable menus state -> Notions.Consistent menus state.
Proof.
  induction 1 as [|state e state' Hreach IH Hen Hstep].
  - unfold Notions.Consistent. simpl. auto.
  - destruct e as [def random|random]; simpl in Hen, Hstep.
    + destruct Hen as [Hdef Hdraw].
      destruct (handleSelect_button random menus def state Hdef Hdraw)
        as (cs & _ & Hsel & Hcons).
      rewrite Hsel in Hstep. injection Hstep as <-. exact Hcons.
    + destruct Hen as [_ Hdraw].
      destruct (handleReroll_consistent random menus state IH Hdraw)
        as (s' & Hre & Hcons & _).
      rewrite Hre in Hstep. injection Hstep as <-. exact Hcons.
Qed.

(** Whatever buttons are clicked, in whatever order, the state of the
    component is consistent: before the first click it holds no filter, no
    result and a count of zero; after it, it holds the filter of a button,
    the count of the candidates of that filter in the list, and a result
    that is one of these candidates, or [null] exactly when there are none.
    And no click the page allows makes a handler throw. *)
Theorem component_consistent (menus : list Menu) (state : DinnerApp.State) :
  Notions.Reachable menus state ->
  Notions.Consistent menus state
  /\ forall e, Notions.enabled e state ->
       exists state',
         DinnerApp.handle menus e state = Return state'
         /\ Notions.Consistent menus state'.
Proof.
  intros Hreach.
  pose proof (Reachable_Consistent menus state Hreach) as Hcons.
  split; [exact Hcons|].
  intros [def random|random] Hen; simpl in Hen |- *.
  - destruct Hen as [Hdef Hdraw].
    destruct (handleSelect_button random menus def state Hdef Hdraw)
      as (cs & _ & Hsel & Hcons').
    eexists. split; [exact Hsel | exact Hcons'].
  - destruct Hen as [_ Hdraw].
    destruct (handleReroll_consistent random menus state Hcons Hdraw)
      as (s' & Hre & Hcons' & _).
    exists s'. split; assumption.
Qed.

Lemma riceChosen_reachable :
  Notions.Reachable Sample.menus Notions.riceChosen.
Proof.
  apply (Notions.Reachable_step Sample.menus DinnerApp.initial
           (DinnerApp.Click
              (Controls.mkButton (lit "米が食べたい") Sample.riceFilter
                                 (lit "rice")) Sample.half)).
  - constructor.
  - split; [do 5 right; left; reflexivity|].
    unfold Notions.isDraw, isRandom, Sample.half. simpl. lia.
  - reflexivity.
Defined.

Lemma component_consistent_witness :
  Notions.Reachable Sample.menus Notions.riceChosen
  /\ Notions.Consistent Sample.menus Notions.riceChosen.
Proof.
  split; [exact riceChosen_reachable|].
  exact (proj1 (component_consistent Sample.menus _ riceChosen_reachable)).
Defined.

(** The reroll, in a state the component can be in: it keeps the filter and
    the count and draws again among the same candidates, so that with one
    candidate only the dish shown stays; with no filter chosen yet it
    changes nothing. *)
Theorem handleReroll_keeps (random : number) (menus : list Menu)
    (state : DinnerApp.State) :
  Notions.Reachable menus state -> Notions.isDraw random ->
  exists state',
    DinnerApp.handleReroll random menus state = Return state'
    /\ DinnerApp.filter state' = DinnerApp.filter state
    /\ DinnerApp.candidatesCount state' = DinnerApp.candidatesCount state
    /\ DinnerApp.hasDecided state' = DinnerApp.hasDecided state
    /\ (DinnerApp.candidatesCount state = 1%nat ->
        DinnerApp.result state' = DinnerApp.result state)
    /\ (DinnerApp.filter state = None -> state' = state).
Proof.
  intros Hreach Hdraw.
  pose proof (Reachable_Consistent menus state Hreach) as Hcons.
  destruct (handleReroll_consistent random menus state Hcons Hdraw)
    as (s' & Hre & _ & Hf & Hc & Hd & Hone).
  exists s'. repeat split; auto.
  intros Hnone. unfold DinnerApp.handleReroll in Hre. rewrite Hnone in Hre.
  injection Hre as <-. reflexivity.
Qed.

Lemma handleReroll_keeps_witness :
  Notions.Reachable Sample.menus Notions.riceChosen
  /\ Notions.isDraw Sample.twoThirds
  /\ exists state',
       DinnerApp.handleReroll Sample.twoThirds Sample.menus Notions.riceChosen
         = Return state'
       /\ DinnerApp.filter state' = Some Sample.riceFilter
       /\ DinnerApp.candidatesCount state' = 1%nat
       /\ DinnerApp.result state' = Some Sample.curry.
Proof.
  assert (Hd : Notions.isDraw Sample.twoThirds).
  { unfold Notions.isDraw, isRandom, Sample.twoThirds. simpl. lia. }
  split; [exact riceChosen_reachable|]. split; [exact Hd|].
  destruct (handleReroll_keeps Sample.twoThirds Sample.menus
              Notions.riceChosen riceChosen_reachable Hd)
    as (s' & E & Hf & Hc & _ & Hone & _).
  exists s'. split; [exact E|]. split; [exact Hf|]. split; [exact Hc|].
  exact (Hone eq_refl).
Defined.

(** What the page shows, in a state the component can be in: the
    placeholder exactly as long as no filter has been chosen; the message
    that nothing matches exactly when a filter has been chosen and the count
    is zero; otherwise the card of a record of the list. The reroll button
    is enabled exactly when a card is shown. *)
Theorem view_of_state (menus : list Menu) (state : DinnerApp.State) :
  Notions.Reachable menus state ->
  (DinnerApp.view state = DinnerApp.Placeholder
   <-> DinnerApp.filter state = None)
  /\ (DinnerApp.view state = DinnerApp.NoMatch
      <-> DinnerApp.filter state <> None
          /\ DinnerApp.candidatesCount state = 0%nat)
  /\ (forall m, DinnerApp.view state = DinnerApp.Card m ->
      In m menus /\ (0 < DinnerApp.candidatesCount state)%nat)
  /\ (Controls.rerollDisabled (DinnerApp.hasResult state) = false
      <-> exists m, DinnerApp.view state = DinnerApp.Card m).
Proof.
  intros Hreach.
  pose proof (Reachable_Consistent menus state Hreach) as Hcons.
  unfold Notions.Consistent in Hcons.
  unfold DinnerApp.view, Controls.rerollDisabled, DinnerApp.hasResult.
  destruct (DinnerApp.filter state) as [f|].
  - destruct Hcons as (-> & _ & cs & Hret & -> & Hnone & Hsome).
    cbn [negb].
    destruct (DinnerApp.result state) as [r|].
    + specialize (Hsome r eq_refl).
      assert (Hpos : (0 < length cs)%nat)
        by (destruct cs; [destruct Hsome | simpl; lia]).
      split; [split; discriminate|].
      split; [split; [discriminate | intros [_ H]; lia]|].
      split.
      * intros m H. injection H as <-. split; [|exact Hpos].
        destruct (getCandidates_filter menus f cs Hret) as (keep & -> & _).
        apply filter_In in Hsome. apply Hsome.
      * split; [eauto | reflexivity].
    + destruct Hnone as [Hnone _]. rewrite (Hnone eq_refl).
      split; [split; discriminate|].
      split; [split; [intros _; split; [discriminate | reflexivity]
                     | reflexivity]|].
      split; [intros m H; discriminate H|].
      split; [discriminate | intros [m H]; discriminate H].
  - destruct Hcons as (-> & -> & ->). cbn [negb].
    split; [split; reflexivity|].
    split; [split; [discriminate | intros [H _]; contradiction]|].
    split; [intros m H; discriminate H|].
    split; [discriminate | intros [m H]; discriminate H].
Qed.

Lemma view_of_state_witness :
  Notions.Reachable Sample.menus Notions.riceChosen
  /\ DinnerApp.view Notions.riceChosen = DinnerApp.Card Sample.curry
  /\ In Sample.curry Sample.menus
  /\ Controls.rerollDisabled (DinnerApp.hasResult Notions.riceChosen) = false.
Proof.
  split; [exact riceChosen_reachable|]. split; [reflexivity|].
  destruct (view_of_state Sample.menus Notions.riceChosen
              riceChosen_reachable) as (_ & _ & Hcard & Hreroll).
  split; [exact (proj1 (Hcard Sample.curry eq_refl))|].
  apply Hreroll. exists Sample.curry. reflexivity.
Defined.

(** ** The card *)

(** The second tag of the card of a record the loader returned is one of
    the two carbs or the dash, never the text of the third value. *)
Theorem carbTag_of_loaded
    (stableId : jsstring -> jsstring -> jsstring -> jsstring)
    (raw : jsstring) (menus : list Menu) (m : Menu) :
  parseText stableId raw = Return menus -> In m menus ->
  In (ResultCard.carbTag m) [lit "米"; lit "麺"; lit "─"]
  /\ ResultCard.carbTag m <> lit "どちらでもない".
Proof.
  intros Hparse Hm.
  destruct (parseText_records stableId raw menus Hparse) as (rows & -> & _).
  apply in_map_iff in Hm. destruct Hm as (line & <- & Hline).
  apply filter_In in Hline. destruct Hline as [_ Hvalid].
  destruct (recordOf_wellFormed stableId line Hvalid) as (_ & _ & _ & Hcarb & _).
  unfold ResultCard.carbTag. unfold CARBS in Hcarb.
  generalize dependent (Menus.carb (recordOf stableId line)).
  intros c Hcarb. simpl in Hcarb.
  destruct Hcarb as [E|[E|[E|[]]]]; subst c; vm_compute;
    (split; [auto | discriminate]).
Qed.

Lemma carbTag_of_loaded_witness :
  parseText MenusMix.stableId Sample.catalog = Return Sample.menus
  /\ In Sample.pudding Sample.menus
  /\ In (ResultCard.carbTag Sample.pudding) [lit "米"; lit "麺"; lit "─"].
Proof.
  assert (H1 : parseText MenusMix.stableId Sample.catalog
               = Return Sample.menus) by reflexivity.
  assert (H2 : In Sample.pudding Sample.menus)
    by (do 2 right; left; reflexivity).
  split; [exact H1|]. split; [exact H2|].
  exact (proj1 (carbTag_of_loaded MenusMix.stableId Sample.catalog
                  Sample.menus Sample.pudding H1 H2)).
Defined.

(** ** A last line end, and rows written twice *)

Lemma splitFrom_step (cur : jsstring) (c : Z) (r : jsstring) :
  splitFrom cur (c :: r) =
    if c =? LF then cur :: splitFrom [] r
    else if c =? CR then
      match r with
      | c' :: r' => if c' =? LF then cur :: splitFrom [] r'
                    else splitFrom (cur ++ [c]) r
      | [] => splitFrom (cur ++ [c]) r
      end
    else splitFrom (cur ++ [c]) r.
Proof. reflexivity. Qed.

Lemma splitFrom_final_LF (s : jsstring) :
  forall cur,
  (forall p, s <> p ++ [CR]) ->
  splitFrom cur (s ++ [LF]) = splitFrom cur s ++ [[]].
Proof.
  induction s as [s IH] using (well_founded_induction
    (Wf_nat.well_founded_ltof _ (@length Z))).
  unfold Wf_nat.ltof in IH. intros cur Hend.
  destruct s as [|c r]; [reflexivity|].
  assert (Hr : forall p, r <> p ++ [CR]).
  { intros p E. apply (Hend (c :: p)). rewrite E. reflexivity. }
  cbn [app]. rewrite !splitFrom_step.
  destruct (c =? LF).
  - rewrite (IH r) by (simpl; auto). reflexivity.
  - destruct (c =? CR) eqn:Ec.
    + apply Z.eqb_eq in Ec. subst c.
      destruct r as [|c' r'].
      * exfalso. apply (Hend []). reflexivity.
      * cbn [app]. destruct (c' =? LF).
        -- rewrite (IH r'); [reflexivity | simpl; lia |].
           intros p E. apply (Hr (c' :: p)). rewrite E. reflexivity.
        -- apply (IH (c' :: r')); [simpl; lia | exact Hr].
    + apply (IH r); [simpl; lia | exact Hr].
Qed.

Lemma findIndex_final_blank (lines : list jsstring) :
  findIndex (fun l => negb (isBlank l)) (lines ++ [[]])
    = findIndex (fun l => negb (isBlank l)) lines.
Proof.
  induction lines as [|l lines IH]; simpl; [reflexivity|].
  rewrite IH. reflexivity.
Qed.

(** A line end after the last line of a text changes nothing to what the
    loader gives, error messages included, unless the text ends in a lone
    CR. *)
Theorem parseText_final_newline
    (stableId : jsstring -> jsstring -> jsstring -> jsstring)
    (raw : jsstring) :
  (forall p, raw <> p ++ [CR]) ->
  splitLines (raw ++ [LF]) = splitLines raw ++ [[]]
  /\ parseText stableId (raw ++ [LF]) = parseText stableId raw.
Proof.
  intros Hend.
  assert (Hsplit : splitLines (raw ++ [LF]) = splitLines raw ++ [[]])
    by (apply splitFrom_final_LF; exact Hend).
  split; [exact Hsplit|].
  unfold parseText. rewrite Hsplit.
  destruct (findIndex (fun l => negb (isBlank l)) (splitLines raw))
    as [headerIdx|] eqn:Hidx.
  - pose proof (parseLines_split stableId _ [] headerIdx Hidx) as E.
    rewrite app_nil_r in E. rewrite E.
    rewrite (parseLines_split stableId _ [[]] headerIdx Hidx).
    cbn [rowLoop].
    rewrite (rowStep_nameless stableId _ [] _ eq_refl). reflexivity.
  - unfold parseLines. rewrite findIndex_final_blank, Hidx. reflexivity.
Qed.

Lemma parseText_final_newline_witness :
  (forall p, lit "name,mainGenre,carb" <> p ++ [CR])
  /\ parseText MenusMix.stableId (lit "name,mainGenre,carb" ++ [LF])
     = parseText MenusMix.stableId (lit "name,mainGenre,carb").
Proof.
  assert (H : forall p, lit "name,mainGenre,carb" <> p ++ [CR]).
  { intros p E. apply (f_equal (@rev Z)) in E.
    rewrite rev_app_distr in E. vm_compute in E. discriminate E. }
  split; [exact H|].
  exact (proj2 (parseText_final_newline MenusMix.stableId _ H)).
Defined.

Lemma validRow_not_invalid (line : jsstring) :
  validRow line = true -> invalidRow line = false.
Proof.
  unfold invalidRow, validRow.
  destruct (hasName line), (validFields line); simpl; congruence.
Qed.

(** The loader keeps every valid row, as many times as it is written: under
    the header, a valid row written [n] times gives [n] records that are
    the same, id included. *)
Theorem parseLines_keeps_duplicates
    (stableId : jsstring -> jsstring -> jsstring -> jsstring)
    (line : jsstring) (n : nat) :
  validRow line = true ->
  parseLines stableId (lit "name,mainGenre,carb" :: repeat line n)
    = Return (repeat (recordOf stableId line) n).
Proof.
  intros Hvalid.
  pose proof (validRow_not_invalid line Hvalid) as Hinvalid.
  rewrite (parseLines_rows stableId
             (lit "name,mainGenre,carb" :: repeat line n) 0
             eq_refl eq_refl).
  cbv zeta. rewrite skipn_numbered. cbn [Nat.add skipn].
  assert (Hbad : forall i,
    filter (fun row : nat * jsstring => invalidRow (snd row))
           (combine (seq i (length (repeat line n))) (repeat line n)) = []).
  { induction n as [|n IH]; intros i; simpl; [reflexivity|].
    rewrite Hinvalid. apply IH. }
  rewrite Hbad. simpl. f_equal.
  clear Hbad. induction n as [|n IH]; simpl; [reflexivity|].
  rewrite Hvalid. simpl. rewrite IH. reflexivity.
Qed.

Lemma parseLines_keeps_duplicates_witness :
  validRow (lit "カレー,洋食,米") = true
  /\ parseLines MenusMix.stableId
       (lit "name,mainGenre,carb" :: repeat (lit "カレー,洋食,米") 2)
     = Return [Sample.curry; Sample.curry].
Proof.
  assert (H : validRow (lit "カレー,洋食,米") = true) by reflexivity.
  split; [exact H|].
  exact (parseLines_keeps_duplicates MenusMix.stableId
           (lit "カレー,洋食,米") 2 H).
Defined.
